(** * drug_named_entity_recognition: the matching engine of drugs_finder.py

    A shallow embedding of [get_ngrams], of the module-level construction of
    the n-gram index, of [get_fuzzy_match] and of [find_drugs], followed by
    the properties of the natural-language specification that concern them.

    Conventions of the embedding.
    - A Python [str] is a [string] of ASCII characters; [str.lower] and
      [str.strip] are those of ASCII text.
    - A Python [set] of strings is a [gset string].  Python does not fix the
      order in which a set is iterated: the order is the function
      [iter_order], about which only [iter_order s ≡ₚ elements s] is assumed.
    - An insertion-ordered [dict] whose order matters (the vocabulary, the
      [Counter]) is an association list; a [dict] that is only looked up is a
      [gmap].
    - [num / len] on two small integers is the double nearest to the exact
      quotient; the quotient is kept exactly, as a [Q].  (Below 2^26 the
      order and the equality of the doubles are those of the quotients.)
    - The dictionaries that [find_drugs] copies and mutates live in a heap
      ([list dict], an address is an index); a raised exception is the
      [Raise] outcome of the state-and-exception monad [M]. *)

From Stdlib Require Import Ascii String QArith.
From stdpp Require Import gmap strings list.

Open Scope string_scope.
Open Scope list_scope.
Open Scope nat_scope.

(** ** Exceptions and outcomes *)

Inductive exn : Type :=
| KeyError (key : string)
| NameError (name : string)
| IndexError
| TypeError
| ZeroDivisionError
| OSError.

Inductive res (A : Type) : Type :=
| Ok (a : A)
| Raise (e : exn).
Arguments Ok {A} a.
Arguments Raise {A} e.

#[export] Instance res_ret : MRet res := λ A a, Ok a.
#[export] Instance res_bind : MBind res := λ A B k r,
  match r with
  | Ok a => k a
  | Raise e => Raise e
  end.

(** ** Strings *)

Definition lower_ascii (c : ascii) : ascii :=
  let n := nat_of_ascii c in
  if (65 <=? n) && (n <=? 90) then ascii_of_nat (n + 32) else c.

Fixpoint lower (s : string) : string :=
  match s with
  | EmptyString => EmptyString
  | String c s' => String (lower_ascii c) (lower s')
  end.

(** ** get_ngrams (lines 59-64) *)

Definition get_ngrams (text : string) : gset string :=
  let n := 3 in
  list_to_set ((λ i, substring i n text) <$> seq 0 (String.length text + 1 - n)).

(** ** The n-gram index built when the module is loaded (lines 67-75) *)

Record index : Type := Index {
  ngram_to_variant : gmap string (list string);
  variant_to_ngrams : gmap string (gset string);
  (* the loop variable [ngrams] of line 70 is a module-level name: it is
     unbound until the loop has run once and then keeps its last value *)
  ngrams : option (gset string)
}.

Definition empty_index : index := Index ∅ ∅ None.

Section Finder.

(** The order in which Python iterates over a set of strings. *)
Variable iter_order : gset string → list string.
Hypothesis iter_order_perm : ∀ s, iter_order s ≡ₚ elements s.

(** [drug_variant_to_canonical]: variant to its canonical ids, in the order
    of the dictionary. *)
Variable drug_variant_to_canonical : list (string * list string).

Fixpoint dict_get {V} (d : list (string * V)) (k : string) : option V :=
  match d with
  | [] => None
  | (k', v) :: d' => if decide (k' = k) then Some v else dict_get d' k
  end.

Definition index_add_ngram (drug_variant : string)
    (n2v : gmap string (list string)) (ngram : string) : gmap string (list string) :=
  let n2v := match n2v !! ngram with
             | None => <[ngram := []]> n2v
             | Some _ => n2v
             end in
  <[ngram := default [] (n2v !! ngram) ++ [drug_variant]]> n2v.

Definition index_add_variant (ix : index) (drug_variant : string) : index :=
  let ngrams := get_ngrams drug_variant in
  {| ngrams := Some ngrams;
     variant_to_ngrams := <[drug_variant := ngrams]> (variant_to_ngrams ix);
     ngram_to_variant :=
       foldl (index_add_ngram drug_variant) (ngram_to_variant ix) (iter_order ngrams) |}.

Definition the_index : index :=
  foldl index_add_variant empty_index (drug_variant_to_canonical.*1).

(** ** get_fuzzy_match (lines 78-99) *)

(** [Counter]: insertion-ordered, [c[k] += 1] keeps the place of a key that
    is already present. *)
Fixpoint counter_incr (c : list (string * nat)) (k : string) : list (string * nat) :=
  match c with
  | [] => [(k, 1)]
  | (k', n) :: c' => if decide (k' = k) then (k', n + 1) :: c' else (k', n) :: counter_incr c' k
  end.

(** lines 81-84 *)
Fixpoint count_candidates (query : list string) (c : list (string * nat))
    : res (list (string * nat)) :=
  match query with
  | [] => Ok c
  | ngram :: query' =>
      match ngram_to_variant the_index !! ngram with
      | None => Raise (KeyError ngram)
      | Some candidates => count_candidates query' (foldl counter_incr c candidates)
      end
  end.

(** lines 87-90; the keys of the counter are distinct, so that
    [candidate_to_jaccard] has the counter's keys in the counter's order *)
Fixpoint jaccard_all (c : list (string * nat)) : res (list (string * Q)) :=
  match c with
  | [] => Ok []
  | (candidate, num_matching_ngrams) :: c' =>
      match ngrams the_index with
      | None => Raise (NameError "ngrams")
      | Some ngrams =>
          match variant_to_ngrams the_index !! candidate with
          | None => Raise (KeyError candidate)
          | Some cand_ngrams =>
              let ngrams_in_query_and_candidate := ngrams ∪ cand_ngrams in
              match size ngrams_in_query_and_candidate with
              | O => Raise ZeroDivisionError
              | S k =>
                  let jaccard := (Z.of_nat num_matching_ngrams # Pos.of_succ_nat k)%Q in
                  rest ← jaccard_all c';
                  Ok ((candidate, jaccard) :: rest)
              end
          end
      end
  end.

(** [max(d, key=d.get)]: the first key, in the order of [d], whose value is
    not exceeded. *)
Fixpoint max_by_value (best : string * Q) (d : list (string * Q)) : string * Q :=
  match d with
  | [] => best
  | kv :: d' => max_by_value (if Qlt_le_dec best.2 kv.2 then kv else best) d'
  end.

(** lines 79-90: the dictionary [candidate_to_jaccard] of a query *)
Definition candidate_to_jaccard (surface_form : string) : res (list (string * Q)) :=
  let query_ngrams := get_ngrams surface_form in
  candidate_to_num_matching_ngrams ← count_candidates (iter_order query_ngrams) [];
  jaccard_all candidate_to_num_matching_ngrams.

Definition get_fuzzy_match (surface_form : string) : res (option (string * Q)) :=
  let query_ngrams := get_ngrams surface_form in
  candidate_to_jaccard ← candidate_to_jaccard surface_form;
  match candidate_to_jaccard with
  | kv :: d' =>
      let '(top_candidate, jaccard) := max_by_value kv d' in
      match variant_to_ngrams the_index !! top_candidate with
      | None => Raise (KeyError top_candidate)
      | Some top_ngrams =>
          let query_ngrams_missing_in_candidate := query_ngrams ∖ top_ngrams in
          let candidate_ngrams_missing_in_query := top_ngrams ∖ query_ngrams in
          if bool_decide (size query_ngrams_missing_in_candidate
                            `max` size candidate_ngrams_missing_in_query ≤ 3)
          then Ok (Some (top_candidate, jaccard))
          else Ok None
      end
  | [] => Ok None
  end.

(** [max(candidate_to_jaccard, key=candidate_to_jaccard.get)] with its value
    (lines 93-94), when there is a candidate. *)
Definition top_of (d : list (string * Q)) : option (string * Q) :=
  match d with
  | kv :: d' => Some (max_by_value kv d')
  | [] => None
  end.

(** ** The store of find_drugs *)

(** The values held in a metadata record. *)
Inductive value : Type :=
| VNone
| VBool (b : bool)
| VStr (s : string)
| VFloat (q : Q)
| VList (l : list string).

Abbreviation dict := (gmap string value).
Abbreviation loc := nat (only parsing).

(** A mention: the tuple (match_data, start, end) that [find_drugs] appends
    to [drug_matches]; [match_data] is a reference to a dictionary. *)
Abbreviation mention := (loc * nat * nat)%type (only parsing).

Record state : Type := State {
  heap : list dict;
  (* the module-level cache [dbid_to_mol_lookup] *)
  dbid_to_mol_lookup : gmap string value;
  (* the lines of "open structures.sdf", each with its line end, when the
     file exists *)
  structures_file : option (list string)
}.

Definition M (A : Type) : Type := state → res A * state.

#[export] Instance M_ret : MRet M := λ A a s, (Ok a, s).
#[export] Instance M_bind : MBind M := λ A B k m s,
  match m s with
  | (Ok a, s') => k a s'
  | (Raise e, s') => (Raise e, s')
  end.

Definition raise {A} (e : exn) : M A := λ s, (Raise e, s).

Definition lift {A} (r : res A) : M A := λ s, (r, s).

(** A new dictionary object. *)
Definition alloc (d : dict) : M loc := λ s,
  (Ok (length (heap s)),
   State (heap s ++ [d]) (dbid_to_mol_lookup s) (structures_file s)).

(** The dictionary behind a reference (a reference that the program holds
    is always allocated). *)
Definition read (l : loc) : M dict := λ s, (Ok (default ∅ (heap s !! l)), s).

(** [d[k] = v] on the dictionary behind [l]. *)
Definition write (l : loc) (k : string) (v : value) : M () := λ s,
  (Ok (),
   State (alter (λ d, <[k := v]> d) l (heap s)) (dbid_to_mol_lookup s) (structures_file s)).

Definition get_lookup : M (gmap string value) := λ s, (Ok (dbid_to_mol_lookup s), s).

Fixpoint foldM {A B} (f : B → A → M B) (l : list A) (b : B) : M B :=
  match l with
  | [] => mret b
  | x :: l' => b' ← f b x; foldM f l' b'
  end.

(** [for i, x in enumerate(l, i0)] *)
Fixpoint for_enumerate {A B} (f : B → nat → A → M B) (i0 : nat) (l : list A) (b : B) : M B :=
  match l with
  | [] => mret b
  | x :: l' => b' ← f b i0 x; for_enumerate f (S i0) l' b'
  end.

(** ** Loading the structures (lines 111-129) *)

(** [download_structures], of structure_file_downloader: from the file as it
    is to the file as the download leaves it, or an error. *)
Variable download_structures : option (list string) → res (option (list string)).

Definition newline : string := String (ascii_of_nat 10) EmptyString.

Definition is_space (c : ascii) : bool :=
  let n := nat_of_ascii c in
  ((9 <=? n) && (n <=? 13)) || ((28 <=? n) && (n <=? 32)).

Fixpoint lstrip (s : string) : string :=
  match s with
  | String c s' => if is_space c then lstrip s' else s
  | EmptyString => EmptyString
  end.

Fixpoint rstrip (s : string) : string :=
  match s with
  | String c s' =>
      match rstrip s' with
      | EmptyString => if is_space c then EmptyString else String c EmptyString
      | r => String c r
      end
  | EmptyString => EmptyString
  end.

Definition strip (s : string) : string := rstrip (lstrip s).

Definition contains (needle hay : string) : bool :=
  bool_decide (is_Some (String.index 0 needle hay)).

(** One line of the loop of lines 122-129 over
    (is_in_structure, current_structure, dbid_to_mol_lookup). *)
Definition parse_line (acc : bool * string * gmap string value) (l : string)
    : bool * string * gmap string value :=
  let '(is_in_structure, current_structure, lookup) := acc in
  let current_structure :=
    if is_in_structure && negb (contains "DRUGBANK_ID" l)
    then String.append (String.append current_structure newline) l
    else current_structure in
  if String.prefix "DB" l
  then (false, "", <[strip l := VStr current_structure]> lookup)
  else (is_in_structure, current_structure, lookup).

Definition load_structures : M () := λ s,
  if bool_decide (size (dbid_to_mol_lookup s) = 0) then
    let lookup := <["downloading" := VBool true]> (dbid_to_mol_lookup s) in
    let is_exists := bool_decide (is_Some (structures_file s)) in
    match (if is_exists then Ok (structures_file s)
           else download_structures (structures_file s)) with
    | Raise e => (Raise e, State (heap s) lookup (structures_file s))
    | Ok file =>
        match file with
        | None => (Raise OSError, State (heap s) lookup file)
        | Some lines =>
            (Ok (), State (heap s) (foldl parse_line (true, "", lookup) lines).2 file)
        end
    end
  else (Ok (), s).

(** ** find_drugs (lines 102-189) *)

(** [drug_canonical_to_data]: canonical id to (a reference to) its record;
    [drug_variant_to_variant_data]: variant to its override fields. *)
Variable drug_canonical_to_data : gmap string loc.
Variable drug_variant_to_variant_data : gmap string dict.

(** [dict(drug_canonical_to_data[m]) | drug_variant_to_variant_data.get(variant, {})]:
    a new dictionary, the fields of the second operand win. *)
Definition match_data_for (m variant : string) : M loc :=
  match drug_canonical_to_data !! m with
  | None => raise (KeyError m)
  | Some l =>
      record ← read l;
      alloc (default ∅ (drug_variant_to_variant_data !! variant) ∪ record)
  end.

(** The body shared by the fuzzy branches (lines 153-159 and 174-179). *)
Definition emit_fuzzy (variant : string) (similarity : Q) (start stop : nat)
    (drug_matches : list mention) (m : string) : M (list mention) :=
  match_data ← match_data_for m variant;
  write match_data "match_type" (VStr "fuzzy");;
  write match_data "match_similarity" (VFloat similarity);;
  mret (drug_matches ++ [(match_data, start, stop)]).

Definition fuzzy_branch (cand_norm : string) (start stop : nat)
    (drug_matches : list mention) : M (list mention) :=
  fuzzy ← lift (get_fuzzy_match cand_norm);
  match fuzzy with
  | Some (fuzzy_matched_variant, similarity) =>
      match dict_get drug_variant_to_canonical fuzzy_matched_variant with
      | None => raise (KeyError fuzzy_matched_variant)
      | Some match_ =>
          foldM (emit_fuzzy fuzzy_matched_variant similarity start stop) match_ drug_matches
      end
  | None => mret drug_matches
  end.

(** The bodies of the loops over an exact match (lines 143-148 and
    lines 167-169). *)
Definition emit_exact_pair (cand_norm : string) (token_idx : nat)
    (acc : list mention * gset nat) (m : string) : M (list mention * gset nat) :=
  let '(drug_matches, is_exclude) := acc in
  match_data ← match_data_for m cand_norm;
  mret (drug_matches ++ [(match_data, token_idx, token_idx + 1)],
        {[token_idx + 1]} ∪ ({[token_idx]} ∪ is_exclude)).

Definition emit_exact (cand_norm : string) (token_idx : nat)
    (drug_matches : list mention) (m : string) : M (list mention) :=
  match_data ← match_data_for m cand_norm;
  mret (drug_matches ++ [(match_data, token_idx, token_idx)]).

(** lines 135-159: one adjacent pair *)
Definition bigram_step (tokens : list string) (is_fuzzy_match : bool)
    (acc : list mention * gset nat) (token_idx : nat) (token : string)
    : M (list mention * gset nat) :=
  match tokens !! (token_idx + 1) with
  | None => raise IndexError
  | Some next =>
      let cand := String.append (String.append token " ") next in
      let cand_norm := lower cand in
      match dict_get drug_variant_to_canonical cand_norm with
      | Some ((_ :: _) as match_) => foldM (emit_exact_pair cand_norm token_idx) match_ acc
      | _ =>
          if is_fuzzy_match then
            drug_matches ← fuzzy_branch cand_norm token_idx (token_idx + 1) acc.1;
            mret (drug_matches, acc.2)
          else mret acc
      end
  end.

(** lines 161-179: one token *)
Definition unigram_step (is_fuzzy_match : bool) (is_exclude : gset nat)
    (drug_matches : list mention) (token_idx : nat) (token : string)
    : M (list mention) :=
  if bool_decide (token_idx ∈ is_exclude) then mret drug_matches
  else
    let cand_norm := lower token in
    match dict_get drug_variant_to_canonical cand_norm with
    | Some ((_ :: _) as match_) => foldM (emit_exact cand_norm token_idx) match_ drug_matches
    | _ =>
        if is_fuzzy_match then
          fuzzy_branch cand_norm token_idx (token_idx + 1) drug_matches
        else mret drug_matches
    end.

(** lines 181-187: one match *)
Definition add_structure (_ : ()) (match_ : mention) : M () :=
  let match_data := match_.1.1 in
  d ← read match_data;
  match d !! "drugbank_id" with
  | None => mret ()
  | Some key =>
      match key with
      | VStr k =>
          lookup ← get_lookup;
          match lookup !! k with
          | None | Some VNone => mret ()
          | Some structure => write match_data "structure_mol" structure
          end
      | VList _ => raise TypeError   (* a list is not hashable *)
      | _ => mret ()
      end
  end.

(** lines 135-159 and lines 161-179 *)
Definition bigram_pass (tokens : list string) (is_fuzzy_match : bool)
    (drug_matches : list mention) (is_exclude : gset nat) : M (list mention * gset nat) :=
  for_enumerate (bigram_step tokens is_fuzzy_match) 0 (removelast tokens)
    (drug_matches, is_exclude).

Definition unigram_pass (tokens : list string) (is_fuzzy_match : bool)
    (is_exclude : gset nat) (drug_matches : list mention) : M (list mention) :=
  for_enumerate (unigram_step is_fuzzy_match is_exclude) 0 tokens drug_matches.

Definition find_drugs (tokens : list string) (is_fuzzy_match : bool)
    (is_ignore_case : option bool) (is_include_structure : bool) : M (list mention) :=
  (if is_include_structure then load_structures else mret ());;
  '(drug_matches, is_exclude) ← bigram_pass tokens is_fuzzy_match [] ∅;
  drug_matches ← unigram_pass tokens is_fuzzy_match is_exclude drug_matches;
  (if is_include_structure then foldM add_structure drug_matches () else mret ());;
  mret drug_matches.

(** What a caller sees of the returned list: the contents of the
    dictionaries and the spans. *)
Definition view (h : list dict) (out : list mention) : list (dict * nat * nat) :=
  (λ m : mention, (default ∅ (h !! m.1.1), m.1.2, m.2)) <$> out.

(** ** What find_drugs returns, by value

    The functions below describe the list that [find_drugs] returns as a
    list of (contents, start, end), from the heap [h] of the call's start.
    [find_drugs_run] proves that [find_drugs] computes them. *)

Abbreviation vmention := (dict * nat * nat)%type (only parsing).

(** An address that the vocabulary holds is allocated. *)
Definition store_wf (h : list dict) : Prop :=
  ∀ m l, drug_canonical_to_data !! m = Some l → l < length h.

(** The vocabulary is closed: every canonical id of a variant has a record. *)
Definition vocabulary_closed : Prop :=
  ∀ variant match_ m,
    (variant, match_) ∈ drug_variant_to_canonical → m ∈ match_ →
    is_Some (drug_canonical_to_data !! m).

Definition merged (h : list dict) (m variant : string) : res dict :=
  match drug_canonical_to_data !! m with
  | None => Raise (KeyError m)
  | Some l => Ok (default ∅ (drug_variant_to_variant_data !! variant) ∪ default ∅ (h !! l))
  end.

(** The contents of the record when [m] has one. *)
Definition merged_dict (h : list dict) (m variant : string) : dict :=
  default ∅ (drug_variant_to_variant_data !! variant)
  ∪ default ∅ (drug_canonical_to_data !! m ≫= λ l, h !! l).

Definition fuzzy_fields (similarity : Q) (d : dict) : dict :=
  <["match_similarity" := VFloat similarity]> (<["match_type" := VStr "fuzzy"]> d).

Fixpoint collect {A} (p : nat → A → res (list vmention)) (i0 : nat) (l : list A)
    : res (list vmention) :=
  match l with
  | [] => Ok []
  | x :: l' => vs ← p i0 x; rest ← collect p (S i0) l'; Ok (vs ++ rest)
  end.

Definition exact_views (h : list dict) (variant : string) (start stop : nat)
    (match_ : list string) : res (list vmention) :=
  collect (λ _ m, d ← merged h m variant; Ok [(d, start, stop)]) 0 match_.

Definition fuzzy_views (h : list dict) (cand_norm : string) (start stop : nat)
    : res (list vmention) :=
  fuzzy ← get_fuzzy_match cand_norm;
  match fuzzy with
  | Some (variant, similarity) =>
      match dict_get drug_variant_to_canonical variant with
      | None => Raise (KeyError variant)
      | Some match_ =>
          collect (λ _ m, d ← merged h m variant;
                          Ok [(fuzzy_fields similarity d, start, stop)]) 0 match_
      end
  | None => Ok []
  end.

(** The canonical ids of a variant when [if match:] holds: the variant is a
    key of the vocabulary and its list is not empty. *)
Definition exact_match (cand_norm : string) : option (list string) :=
  match dict_get drug_variant_to_canonical cand_norm with
  | Some ((_ :: _) as match_) => Some match_
  | _ => None
  end.

Definition bigram_norm (tokens : list string) (i : nat) : option string :=
  token ← tokens !! i; next ← tokens !! (i + 1);
  Some (lower (String.append (String.append token " ") next)).

(** The pair (i, i+1) has an exact match. *)
Definition exact_bigram (tokens : list string) (i : nat) : bool :=
  bool_decide (is_Some (bigram_norm tokens i ≫= exact_match)).

(** The index [i] lies in the span of an exact match of a pair. *)
Definition excluded (tokens : list string) (i : nat) : bool :=
  exact_bigram tokens i || match i with 0 => false | S j => exact_bigram tokens j end.

Definition bigram_views (h : list dict) (tokens : list string) (is_fuzzy_match : bool)
    (i : nat) (token : string) : res (list vmention) :=
  match tokens !! (i + 1) with
  | None => Raise IndexError
  | Some next =>
      let cand_norm := lower (String.append (String.append token " ") next) in
      match exact_match cand_norm with
      | Some match_ => exact_views h cand_norm i (i + 1) match_
      | None => if is_fuzzy_match then fuzzy_views h cand_norm i (i + 1) else Ok []
      end
  end.

Definition unigram_views (h : list dict) (tokens : list string) (is_fuzzy_match : bool)
    (i : nat) (token : string) : res (list vmention) :=
  if excluded tokens i then Ok []
  else
    let cand_norm := lower token in
    match exact_match cand_norm with
    | Some match_ => exact_views h cand_norm i i match_
    | None => if is_fuzzy_match then fuzzy_views h cand_norm i (i + 1) else Ok []
    end.

Definition bigram_pass_views (h : list dict) (tokens : list string) (is_fuzzy_match : bool)
    : res (list vmention) :=
  collect (bigram_views h tokens is_fuzzy_match) 0 (removelast tokens).

Definition unigram_pass_views (h : list dict) (tokens : list string) (is_fuzzy_match : bool)
    : res (list vmention) :=
  collect (unigram_views h tokens is_fuzzy_match) 0 tokens.

Definition scan_views (h : list dict) (tokens : list string) (is_fuzzy_match : bool)
    : res (list vmention) :=
  b ← bigram_pass_views h tokens is_fuzzy_match;
  u ← unigram_pass_views h tokens is_fuzzy_match;
  Ok (b ++ u).

(** lines 184-187 on the contents of a record *)
Definition with_structure (lookup : gmap string value) (d : dict) : res dict :=
  match d !! "drugbank_id" with
  | None => Ok d
  | Some (VStr k) =>
      match lookup !! k with
      | None | Some VNone => Ok d
      | Some structure => Ok (<["structure_mol" := structure]> d)
      end
  | Some (VList _) => Raise TypeError
  | Some _ => Ok d
  end.

Definition structured (lookup : gmap string value) (d : dict) : dict :=
  match with_structure lookup d with
  | Ok d' => d'
  | Raise _ => d
  end.

(** The record as [find_drugs] returns it. *)
Definition final (is_include_structure : bool) (lookup : gmap string value) (d : dict)
    : dict :=
  if is_include_structure then structured lookup d else d.

Fixpoint structure_views (lookup : gmap string value) (vs : list vmention)
    : res (list vmention) :=
  match vs with
  | [] => Ok []
  | v :: vs' =>
      d ← with_structure lookup v.1.1;
      rest ← structure_views lookup vs';
      Ok ((d, v.1.2, v.2) :: rest)
  end.

Definition find_drugs_views (h : list dict) (lookup : gmap string value)
    (tokens : list string) (is_fuzzy_match is_include_structure : bool)
    : res (list vmention) :=
  vs ← scan_views h tokens is_fuzzy_match;
  if is_include_structure then structure_views lookup vs else Ok vs.

(** The references of [vs], allocated in a row from the address [n]. *)
Fixpoint place (n : nat) (vs : list vmention) : list mention :=
  match vs with
  | [] => []
  | v :: vs' => (n, v.1.2, v.2) :: place (S n) vs'
  end.

Definition push (st : state) (ds : list dict) : state :=
  State (heap st ++ ds) (dbid_to_mol_lookup st) (structures_file st).

(** [st'] differs from [st] by new objects only. *)
Definition frame (st st' : state) : Prop :=
  heap st `prefix_of` heap st'
  ∧ dbid_to_mol_lookup st' = dbid_to_mol_lookup st
  ∧ structures_file st' = structures_file st.

(** [c] appends to [acc] the mentions described by [p], as new objects. *)
Definition emits {B} (h0 : list dict) (dm : B → list mention) (c : M B)
    (acc : list mention) (R : B → Prop) (p : res (list vmention)) : Prop :=
  ∀ st, h0 `prefix_of` heap st →
    match c st with
    | (Ok b, st') =>
        ∃ vs, p = Ok vs ∧ dm b = acc ++ place (length (heap st)) vs ∧ R b
              ∧ st' = push st (vs.*1.*1)
    | (Raise e, st') => p = Raise e ∧ frame st st'
    end.

(** The fields that [find_drugs] adds to the copy of a record. *)
Definition added_fields : list string :=
  ["match_type"; "match_similarity"; "structure_mol"].

(** [d] has the fields of the record of the canonical id [m], overlaid by
    the override fields of [variant], but for the added fields: a field that
    [variant] overrides has the override's value, and every other field has
    the value that the record of [m] gives it (or is absent, as in it). *)
Definition is_merged_copy (h : list dict) (m variant : string) (d : dict) : Prop :=
  ∃ l record,
    drug_canonical_to_data !! m = Some l
    ∧ h !! l = Some record
    ∧ ∀ k, k ∉ added_fields →
        d !! k = match default ∅ (drug_variant_to_variant_data !! variant) !! k with
                 | Some x => Some x
                 | None => record !! k
                 end.

(** The variant on which a mention with the span [start]..[stop] rests.
    The query is the pair at [start] (lines 136-137) or, when no exact match
    of a pair covers it, the token at [start] (lines 162-164), lower-cased;
    the variant is the query itself when [if match:] holds for it (lines
    139-141, 165-166), and else, with fuzzy matching, the variant that
    [get_fuzzy_match] gives for it (lines 150-152, 171-173).  An exact match
    of a token spans the token; every other match spans [start]..[start + 1]. *)
Inductive matched_variant (tokens : list string) (is_fuzzy_match : bool)
    : nat → nat → string → Prop :=
  | exact_pair i cand_norm match_ :
      bigram_norm tokens i = Some cand_norm →
      exact_match cand_norm = Some match_ →
      matched_variant tokens is_fuzzy_match i (i + 1) cand_norm
  | exact_token i token match_ :
      tokens !! i = Some token →
      excluded tokens i = false →
      exact_match (lower token) = Some match_ →
      matched_variant tokens is_fuzzy_match i i (lower token)
  | fuzzy_pair i cand_norm variant similarity :
      is_fuzzy_match = true →
      bigram_norm tokens i = Some cand_norm →
      exact_match cand_norm = None →
      get_fuzzy_match cand_norm = Ok (Some (variant, similarity)) →
      matched_variant tokens is_fuzzy_match i (i + 1) variant
  | fuzzy_token i token variant similarity :
      is_fuzzy_match = true →
      tokens !! i = Some token →
      excluded tokens i = false →
      exact_match (lower token) = None →
      get_fuzzy_match (lower token) = Ok (Some (variant, similarity)) →
      matched_variant tokens is_fuzzy_match i (i + 1) variant.

(** The mentions [run], by value, go with the canonical ids [match_] of
    [variant] one by one and in their order: each spans [start]..[stop] and
    its record is the merged copy for its canonical id. *)
Definition run_of (h : list dict) (variant : string) (start stop : nat)
    (run : list vmention) (match_ : list string) : Prop :=
  Forall2 (λ (v : vmention) m,
             v.1.2 = start ∧ v.2 = stop ∧ is_merged_copy h m variant v.1.1)
    run match_.

(** The mention at the position [p] of [vs] lies in a run of [vs] that goes
    with the canonical ids of the variant on which it rests. *)
Definition in_run (h : list dict) (tokens : list string) (is_fuzzy_match : bool)
    (vs : list vmention) (p : nat) : Prop :=
  ∃ variant match_ start stop before run after,
    matched_variant tokens is_fuzzy_match start stop variant
    ∧ dict_get drug_variant_to_canonical variant = Some match_
    ∧ vs = before ++ run ++ after
    ∧ length before ≤ p < length before + length run
    ∧ run_of h variant start stop run match_.

Definition preload (is_include_structure : bool) : M () :=
  if is_include_structure then load_structures else mret ().

(** In the run of [find_drugs] from [s] that returned [out], the second loop
    (lines 161-179) appended [out2]. *)
Definition unigram_part (tokens : list string) (is_fuzzy_match is_include_structure : bool)
    (s : state) (out out2 : list mention) : Prop :=
  ∃ sp out1 is_exclude s1 s2,
    preload is_include_structure s = (Ok (), sp)
    ∧ bigram_pass tokens is_fuzzy_match [] ∅ sp = (Ok (out1, is_exclude), s1)
    ∧ unigram_pass tokens is_fuzzy_match is_exclude out1 s1 = (Ok (out1 ++ out2), s2)
    ∧ out = out1 ++ out2.

(** The is_exclude set after the pairs before [i]. *)
Definition excl_inv (tokens : list string) (i : nat) (is_exclude : gset nat) : Prop :=
  ∀ j, j ∈ is_exclude ↔ ∃ k, k < i ∧ exact_bigram tokens k = true ∧ (j = k ∨ j = k + 1).

(** The strings that [find_drugs] looks up for [tokens]: the pairs and the
    single tokens, joined and lower-cased. *)
Definition is_query (tokens : list string) (q : string) : Prop :=
  (∃ i, bigram_norm tokens i = Some q)
  ∨ (∃ i token, tokens !! i = Some token ∧ q = lower token).

(** Every 3-gram of every query of [tokens] occurs in some variant: line 82
    finds its key. *)
Definition answerable (tokens : list string) : Prop :=
  ∀ q g, is_query tokens q → g ∈ get_ngrams q →
    ∃ v, v ∈ drug_variant_to_canonical.*1 ∧ g ∈ get_ngrams v.

(** ** Auxiliary definitions of the proofs *)

(** The variants of [ks] that contain the 3-gram [g], in the order of [ks]. *)
Definition indexed (ks : list string) (g : string) : list string :=
  filter (λ v, g ∈ get_ngrams v) ks.

Definition index_of (ks : list string) : index := foldl index_add_variant empty_index ks.

(** The count of a key in a counter. *)
Definition cval (c : list (string * nat)) (k : string) : nat := default 0 (dict_get c k).

Definition counter_wf (c : list (string * nat)) : Prop :=
  NoDup c.*1 ∧ Forall (λ kv, 1 ≤ kv.2) c.

(** The number of the 3-grams of [gs] that the variant [k] contains. *)
Definition hits (gs : list string) (k : string) : nat :=
  length (filter (λ g, g ∈ get_ngrams k) gs).

(** ** Concrete vocabularies and stores, for the examples at the end *)

Definition voc_two : list (string * list string) :=
  [("aspirin", ["DB00945"]); ("ibuprofen", ["DB01050"])].

(** A vocabulary with two-token variants, its records and a state. *)
Definition voc_pairs : list (string * list string) :=
  [("acetyl salicylate", ["DB00945"; "CHEMBL25"]);
   ("salicylate sodium", ["DB01398"]);
   ("acetyl", ["DB09116"]);
   ("aspirin", ["DB00945"])].

Definition records_ex : gmap string nat :=
  {[ "DB00945" := 0; "CHEMBL25" := 1; "DB01398" := 2; "DB09116" := 3 ]}.

Definition overrides_ex : gmap string (gmap string value) :=
  {[ "aspirin" := {[ "name" := VStr "Aspirin (brand)" ]} ]}.

Definition heap_ex : list (gmap string value) :=
  [ {[ "name" := VStr "Acetylsalicylic acid"; "drugbank_id" := VStr "DB00945";
       "synonyms" := VList ["acetyl salicylate"; "aspirin"] ]};
    {[ "name" := VStr "ASPIRIN"; "synonyms" := VList ["acetyl salicylate"] ]};
    {[ "name" := VStr "Sodium salicylate"; "drugbank_id" := VStr "DB01398" ]};
    {[ "name" := VStr "Acetyl" ]} ].

Definition sdf_ex : list string :=
  [String.append "  Mrv0541" newline;
   String.append "M  END" newline;
   String.append "> <DRUGBANK_ID>" newline;
   String.append "DB00945" newline;
   String.append "$$$$" newline;
   String.append "DB01398" newline].

Definition state_ex : state := State heap_ex ∅ (Some sdf_ex).

(** A download that fails (the source of the structures is unreachable). *)
Definition no_download (file : option (list string)) : res (option (list string)) :=
  Raise OSError.

(** * Properties *)

(** ** The n-gram index *)

Lemma iter_order_elem (s : gset string) (g : string) : g ∈ iter_order s ↔ g ∈ s.
Proof. rewrite (iter_order_perm s). apply elem_of_elements. Qed.

Lemma iter_order_NoDup (s : gset string) : NoDup (iter_order s).
Proof. rewrite (iter_order_perm s). apply NoDup_elements. Qed.

Lemma index_add_ngram_eq v n2v g :
  index_add_ngram v n2v g = <[g := default [] (n2v !! g) ++ [v]]> n2v.
Proof.
  unfold index_add_ngram. destruct (n2v !! g) as [l|] eqn:E; simpl.
  - by rewrite E.
  - by rewrite lookup_insert_eq, insert_insert_eq.
Qed.

Lemma foldl_index_add_ngram v gs n2v g :
  NoDup gs →
  foldl (index_add_ngram v) n2v gs !! g
  = if decide (g ∈ gs) then Some (default [] (n2v !! g) ++ [v]) else n2v !! g.
Proof.
  intros Hnd. revert n2v. induction Hnd as [|a gs Ha Hnd IH]; intros n2v; cbn [foldl].
  - rewrite decide_False; [done | apply not_elem_of_nil].
  - rewrite IH, index_add_ngram_eq.
    destruct (decide (a = g)) as [->|Hne].
    + rewrite lookup_insert_eq. rewrite !decide_False, decide_True by set_solver. done.
    + rewrite lookup_insert_ne by done.
      destruct (decide (g ∈ gs)).
      * by rewrite decide_True by set_solver.
      * by rewrite decide_False by set_solver.
Qed.

Lemma index_of_snoc ks v : index_of (ks ++ [v]) = index_add_variant (index_of ks) v.
Proof. unfold index_of. by rewrite foldl_app. Qed.

Lemma indexed_snoc ks v g :
  indexed (ks ++ [v]) g = indexed ks g ++ (if decide (g ∈ get_ngrams v) then [v] else []).
Proof.
  unfold indexed. by rewrite filter_app.
Qed.

Lemma ngram_to_variant_spec ks g :
  ngram_to_variant (index_of ks) !! g
  = match indexed ks g with [] => None | l => Some l end.
Proof.
  induction ks as [|v ks IH] using rev_ind; [done|].
  rewrite index_of_snoc, indexed_snoc. simpl.
  rewrite foldl_index_add_ngram by apply iter_order_NoDup.
  rewrite IH. destruct (decide (g ∈ iter_order (get_ngrams v))) as [Hin|Hin];
    rewrite iter_order_elem in Hin.
  - rewrite decide_True by done. destruct (indexed ks g); done.
  - rewrite decide_False by done. by rewrite app_nil_r.
Qed.

Lemma variant_to_ngrams_spec ks v :
  variant_to_ngrams (index_of ks) !! v
  = if decide (v ∈ ks) then Some (get_ngrams v) else None.
Proof.
  induction ks as [|k ks IH] using rev_ind.
  - rewrite decide_False by apply not_elem_of_nil. done.
  - rewrite index_of_snoc. simpl. destruct (decide (k = v)) as [->|Hne].
    + rewrite lookup_insert_eq. by rewrite decide_True by set_solver.
    + rewrite lookup_insert_ne, IH by done.
      destruct (decide (v ∈ ks)).
      * by rewrite decide_True by set_solver.
      * by rewrite decide_False by set_solver.
Qed.

Lemma ngrams_spec ks : ngrams (index_of ks) = get_ngrams <$> last ks.
Proof.
  destruct ks as [|k ks] using rev_ind; [done|].
  rewrite index_of_snoc, last_snoc. done.
Qed.

Lemma the_index_eq : the_index = index_of (drug_variant_to_canonical.*1).
Proof. done. Qed.

Lemma indexed_elem ks g v : v ∈ indexed ks g ↔ v ∈ ks ∧ g ∈ get_ngrams v.
Proof. unfold indexed. rewrite list_elem_of_filter. tauto. Qed.

(** ** The counter of matching n-grams *)

Lemma dict_get_counter_incr c k k' :
  dict_get (counter_incr c k) k'
  = if decide (k = k') then Some (cval c k + 1) else dict_get c k'.
Proof.
  unfold cval. induction c as [|[k0 n] c IH]; simpl.
  - repeat case_decide; done.
  - destruct (decide (k0 = k)) as [->|Hne]; simpl.
    + repeat case_decide; simplify_eq; done.
    + rewrite IH. repeat case_decide; simplify_eq; done.
Qed.

Lemma cval_counter_incr c k k' :
  cval (counter_incr c k) k' = cval c k' + (if decide (k = k') then 1 else 0).
Proof.
  unfold cval at 1. rewrite dict_get_counter_incr.
  case_decide; subst; simpl; unfold cval; lia.
Qed.

Lemma counter_incr_keys c k :
  (counter_incr c k).*1 = if decide (k ∈ c.*1) then c.*1 else c.*1 ++ [k].
Proof.
  induction c as [|[k0 n] c IH].
  - by rewrite decide_False by apply not_elem_of_nil.
  - cbn [counter_incr]. destruct (decide (k0 = k)) as [->|Hne]; rewrite !fmap_cons.
    + by rewrite decide_True by set_solver.
    + rewrite IH. destruct (decide (k ∈ c.*1)).
      * by rewrite decide_True by set_solver.
      * by rewrite decide_False by set_solver.
Qed.

Lemma counter_incr_wf c k : counter_wf c → counter_wf (counter_incr c k).
Proof.
  intros [Hnd Hpos]. split.
  - rewrite counter_incr_keys. case_decide; [done|].
    apply NoDup_app. split_and!; [done| |apply NoDup_singleton].
    intros x Hx Hx'. apply list_elem_of_singleton in Hx'. by subst.
  - clear Hnd. induction Hpos as [|[k0 n] c Hn Hpos IH]; simpl.
    + by repeat constructor.
    + case_decide; constructor; simpl in *; try done; lia.
Qed.

Lemma counter_wf_lookup c k n : counter_wf c → (k, n) ∈ c → cval c k = n ∧ 1 ≤ n.
Proof.
  intros [Hnd Hpos] Hin. split.
  - unfold cval. induction c as [|[k0 n0] c IH]; [by apply elem_of_nil in Hin|].
    simpl in *. apply NoDup_cons in Hnd as [Hk0 Hnd].
    apply Forall_cons in Hpos as [_ Hpos].
    apply elem_of_cons in Hin as [Heq|Hin].
    + simplify_eq. by rewrite decide_True.
    + rewrite decide_False; [by apply IH|].
      intros ->. apply Hk0. apply list_elem_of_fmap. by exists (k, n).
  - rewrite Forall_forall in Hpos. apply (Hpos _ Hin).
Qed.

Lemma cval_pos_elem c k : 0 < cval c k → ∃ n, (k, n) ∈ c.
Proof.
  unfold cval. induction c as [|[k0 n0] c IH]; simpl; [lia|].
  case_decide; subst.
  - intros _. exists n0. apply elem_of_cons. by left.
  - intros Hpos. destruct (IH Hpos) as [n Hn]. exists n. apply elem_of_cons. by right.
Qed.

Lemma foldl_counter_incr c cands :
  counter_wf c →
  counter_wf (foldl counter_incr c cands)
  ∧ ∀ k, cval (foldl counter_incr c cands) k
         = cval c k + length (filter (λ v, v = k) cands).
Proof.
  revert c. induction cands as [|v cands IH]; intros c Hwf; simpl.
  - split; [done|]. intros k. lia.
  - destruct (IH (counter_incr c v) (counter_incr_wf _ _ Hwf)) as [Hwf' Hval].
    split; [done|]. intros k. rewrite Hval, cval_counter_incr, filter_cons.
    repeat case_decide; subst; simpl; try done; lia.
Qed.

Lemma filter_eq_NoDup_length (l : list string) (k : string) :
  NoDup l → length (filter (λ v, v = k) l) = if decide (k ∈ l) then 1 else 0.
Proof.
  induction 1 as [|x l Hx Hnd IH].
  - by rewrite decide_False by apply not_elem_of_nil.
  - rewrite filter_cons. destruct (decide (x = k)) as [->|Hne].
    + simpl. rewrite IH. rewrite decide_False by done.
      by rewrite decide_True by set_solver.
    + rewrite IH. destruct (decide (k ∈ l)).
      * by rewrite decide_True by set_solver.
      * by rewrite decide_False by set_solver.
Qed.

Lemma count_candidates_spec gs c c' :
  NoDup (drug_variant_to_canonical.*1) →
  counter_wf c →
  count_candidates gs c = Ok c' →
  counter_wf c'
  ∧ ∀ k, cval c' k
         = cval c k + (if decide (k ∈ drug_variant_to_canonical.*1) then hits gs k else 0).
Proof.
  intros Hkeys. revert c. induction gs as [|g gs IH]; intros c Hwf; simpl.
  - intros [= <-]. split; [done|]. intros k. unfold hits. case_decide; simpl; lia.
  - rewrite the_index_eq, ngram_to_variant_spec.
    destruct (indexed (drug_variant_to_canonical.*1) g) as [|v0 cands0] eqn:Hcands; [done|].
    rewrite <- Hcands. clear v0 cands0 Hcands.
    set (cands := indexed _ g).
    destruct (foldl_counter_incr c cands Hwf) as [Hwf1 Hval1].
    intros Hrun. destruct (IH _ Hwf1 Hrun) as [Hwf' Hval'].
    split; [done|]. intros k. rewrite Hval', Hval1.
    unfold cands. rewrite filter_eq_NoDup_length by (by apply NoDup_filter).
    unfold hits. rewrite filter_cons.
    destruct (decide (k ∈ drug_variant_to_canonical.*1)) as [Hk|Hk].
    + destruct (decide (g ∈ get_ngrams k)) as [Hg|Hg].
      * rewrite decide_True by (by apply indexed_elem). simpl. lia.
      * rewrite decide_False by (rewrite indexed_elem; tauto). lia.
    + rewrite decide_False by (rewrite indexed_elem; tauto). lia.
Qed.

Lemma hits_iter_order (q : gset string) (k : string) :
  hits (iter_order q) k = size (q ∩ get_ngrams k).
Proof.
  unfold hits, size, set_size. simpl. apply Permutation_length.
  apply NoDup_Permutation.
  - apply NoDup_filter, iter_order_NoDup.
  - apply NoDup_elements.
  - intros g. rewrite list_elem_of_filter, iter_order_elem, elem_of_elements. set_solver.
Qed.

(** ** The similarities and the best candidate *)

Lemma jaccard_all_spec c d :
  jaccard_all c = Ok d →
  Forall2 (λ (kn : string * nat) (kq : string * Q),
             kq.1 = kn.1 ∧
             ∃ ng G k, ngrams the_index = Some ng
                       ∧ variant_to_ngrams the_index !! kn.1 = Some G
                       ∧ size (ng ∪ G) = S k
                       ∧ kq.2 = (Z.of_nat kn.2 # Pos.of_succ_nat k)%Q) c d.
Proof.
  revert d. induction c as [|[k n] c IH]; intros d; simpl.
  - intros [= <-]. constructor.
  - destruct (ngrams the_index) as [ng|] eqn:Hng; [|done].
    destruct (variant_to_ngrams the_index !! k) as [G|] eqn:HG; [|done].
    destruct (size (ng ∪ G)) as [|j] eqn:Hsz; [done|].
    destruct (jaccard_all c) as [rest|e] eqn:Hrest; simpl; [|done].
    intros [= <-]. constructor; [|by apply IH].
    split; [done|]. by exists ng, G, j.
Qed.

(** What line 89 computes for a candidate: the number of the query's 3-grams
    that the candidate contains, over the size of the union of the
    candidate's 3-grams with those of the LAST variant of the vocabulary
    (the module-level [ngrams]). *)
Lemma candidate_to_jaccard_spec q d c sim :
  NoDup (drug_variant_to_canonical.*1) →
  candidate_to_jaccard q = Ok d →
  (c, sim) ∈ d →
  ∃ lastv k,
    last (drug_variant_to_canonical.*1) = Some lastv
    ∧ c ∈ drug_variant_to_canonical.*1
    ∧ variant_to_ngrams the_index !! c = Some (get_ngrams c)
    ∧ size (get_ngrams lastv ∪ get_ngrams c) = S k
    ∧ 1 ≤ size (get_ngrams q ∩ get_ngrams c)
    ∧ sim = (Z.of_nat (size (get_ngrams q ∩ get_ngrams c)) # Pos.of_succ_nat k)%Q.
Proof.
  intros Hkeys. unfold candidate_to_jaccard.
  destruct (count_candidates _ []) as [cnt|e] eqn:Hcnt; simpl; [|done].
  intros Hj Hin.
  apply (count_candidates_spec _ _ _ Hkeys) in Hcnt as [Hwf Hval];
    [|split; [apply NoDup_nil_2 | constructor]].
  apply jaccard_all_spec in Hj.
  apply list_elem_of_lookup in Hin as [i Hi].
  destruct (Forall2_lookup_r _ _ _ _ _ Hj Hi) as ([k n] & Hkn & Hk & ng & G & j & Hng & HG & Hsz & Hsim).
  simpl in *. subst k.
  apply list_elem_of_lookup_2 in Hkn.
  destruct (counter_wf_lookup _ _ _ Hwf Hkn) as [Hcv Hpos].
  rewrite Hval in Hcv. unfold cval in Hcv. simpl in Hcv.
  destruct (decide (c ∈ drug_variant_to_canonical.*1)) as [Hc|Hc]; [|lia].
  rewrite hits_iter_order in Hcv.
  rewrite the_index_eq, variant_to_ngrams_spec, decide_True in HG by done.
  rewrite the_index_eq, ngrams_spec in Hng.
  destruct (last (drug_variant_to_canonical.*1)) as [lastv|]; [|done].
  simplify_eq/=. exists lastv, j. split_and!; try done; try lia.
  by rewrite the_index_eq, variant_to_ngrams_spec, decide_True.
Qed.

Lemma max_by_value_spec best d :
  max_by_value best d ∈ best :: d
  ∧ ∀ kv, kv ∈ best :: d → (kv.2 <= (max_by_value best d).2)%Q.
Proof.
  revert best. induction d as [|kv d IH]; intros best; simpl.
  - split; [apply elem_of_cons; by left|].
    intros x Hx. apply list_elem_of_singleton in Hx as ->. apply Qle_refl.
  - destruct (IH (if Qlt_le_dec best.2 kv.2 then kv else best)) as [Hin Hmax].
    split.
    + apply elem_of_cons in Hin as [Heq|Hin].
      * rewrite Heq. destruct (Qlt_le_dec _ _); set_solver.
      * set_solver.
    + intros x Hx.
      assert (x = best ∨ x = kv ∨ x ∈ d) as [->|[->|Hd]] by set_solver.
      * eapply Qle_trans; [|apply Hmax; apply elem_of_cons; by left].
        destruct (Qlt_le_dec _ _); [by apply Qlt_le_weak | apply Qle_refl].
      * eapply Qle_trans; [|apply Hmax; apply elem_of_cons; by left].
        destruct (Qlt_le_dec _ _); [apply Qle_refl | done].
      * apply Hmax. apply elem_of_cons. by right.
Qed.

Lemma top_of_spec d c sim :
  top_of d = Some (c, sim) →
  (c, sim) ∈ d ∧ ∀ c' sim', (c', sim') ∈ d → (sim' <= sim)%Q.
Proof.
  destruct d as [|kv d]; [done|]. simpl. intros [= Htop].
  destruct (max_by_value_spec kv d) as [Hin Hmax]. rewrite Htop in *.
  split; [done|]. intros c' sim' H'. apply (Hmax _ H').
Qed.

(** [get_fuzzy_match] in terms of the best candidate and the gate. *)
Lemma get_fuzzy_match_unfold q :
  get_fuzzy_match q
  = d ← candidate_to_jaccard q;
    match top_of d with
    | Some (top_candidate, jaccard) =>
        match variant_to_ngrams the_index !! top_candidate with
        | None => Raise (KeyError top_candidate)
        | Some top_ngrams =>
            if bool_decide (size (get_ngrams q ∖ top_ngrams)
                              `max` size (top_ngrams ∖ get_ngrams q) ≤ 3)
            then Ok (Some (top_candidate, jaccard))
            else Ok None
        end
    | None => Ok None
    end.
Proof.
  unfold get_fuzzy_match. destruct (candidate_to_jaccard q) as [[|kv d]|]; done.
Qed.

Lemma jaccard_bounds (n k : nat) :
  1 ≤ n → n ≤ S k →
  (0 < Z.of_nat n # Pos.of_succ_nat k)%Q ∧ (Z.of_nat n # Pos.of_succ_nat k <= 1)%Q.
Proof.
  intros H1 H2. unfold Qlt, Qle. simpl. rewrite Zpos_P_of_succ_nat. lia.
Qed.

(** C3: an accepted fuzzy match carries a similarity in (0, 1]; and the
    best candidate (which has the highest similarity of all candidates) is
    turned down, with the no-match result, as soon as the larger of the two
    one-sided differences between the 3-grams of the query and its own
    exceeds 3. *)
Theorem fuzzy_match_gate (q : string) :
  NoDup (drug_variant_to_canonical.*1) →
  (∀ c sim, get_fuzzy_match q = Ok (Some (c, sim)) → (0 < sim)%Q ∧ (sim <= 1)%Q)
  ∧ (∀ d c sim,
       candidate_to_jaccard q = Ok d →
       top_of d = Some (c, sim) →
       (∀ c' sim', (c', sim') ∈ d → (sim' <= sim)%Q)
       ∧ (3 < size (get_ngrams q ∖ get_ngrams c) `max` size (get_ngrams c ∖ get_ngrams q) →
          get_fuzzy_match q = Ok None)).
Proof.
  intros Hkeys. split.
  - intros c sim. rewrite get_fuzzy_match_unfold.
    destruct (candidate_to_jaccard q) as [d|e] eqn:Hd; simpl; [|done].
    destruct (top_of d) as [[c0 sim0]|] eqn:Htop; [|done].
    destruct (variant_to_ngrams the_index !! c0) as [G|]; [|done].
    case_bool_decide; [|done]. intros [= -> ->].
    apply top_of_spec in Htop as [Hin _].
    destruct (candidate_to_jaccard_spec _ _ _ _ Hkeys Hd Hin)
      as (lastv & k & _ & _ & _ & Hsz & Hpos & ->).
    apply jaccard_bounds; [done|]. rewrite <- Hsz.
    apply subseteq_size. set_solver.
  - intros d c sim Hd Htop.
    destruct (top_of_spec _ _ _ Htop) as [Hin Hmax]. split; [done|].
    intros Hgate. rewrite get_fuzzy_match_unfold, Hd. simpl. rewrite Htop.
    destruct (candidate_to_jaccard_spec _ _ _ _ Hkeys Hd Hin)
      as (lastv & k & _ & _ & -> & _).
    rewrite bool_decide_eq_false_2; [done | lia].
Qed.

(** A query with a 3-gram that no variant contains makes line 82 raise
    KeyError, in whatever order the 3-grams of the query are visited. *)
Lemma count_candidates_raises gs c g :
  g ∈ gs →
  ngram_to_variant the_index !! g = None →
  ∃ k, count_candidates gs c = Raise (KeyError k).
Proof.
  intros Hin Hg. revert c. induction gs as [|g0 gs IH]; intros c.
  - by apply elem_of_nil in Hin.
  - simpl. destruct (ngram_to_variant the_index !! g0) as [cands|] eqn:E0; [|by eexists].
    apply elem_of_cons in Hin as [->|Hin]; [congruence|]. by apply IH.
Qed.

Lemma get_fuzzy_match_unknown_ngram q g :
  g ∈ get_ngrams q →
  (∀ v, v ∈ drug_variant_to_canonical.*1 → g ∉ get_ngrams v) →
  ∃ k, get_fuzzy_match q = Raise (KeyError k).
Proof.
  intros Hg Hno.
  assert (ngram_to_variant the_index !! g = None) as Hnone.
  { rewrite the_index_eq, ngram_to_variant_spec.
    destruct (indexed _ g) as [|v l] eqn:E; [done|].
    assert (v ∈ indexed (drug_variant_to_canonical.*1) g) as Hv
      by (rewrite E; apply elem_of_cons; by left).
    apply indexed_elem in Hv as [Hv Hgv]. by destruct (Hno v Hv). }
  destruct (count_candidates_raises (iter_order (get_ngrams q)) [] g) as [k Hk];
    [by apply iter_order_elem | done |].
  exists k. unfold get_fuzzy_match, candidate_to_jaccard. by rewrite Hk.
Qed.

(** A query shorter than three characters has no 3-gram and is unmatched. *)
Lemma get_ngrams_short q : String.length q < 3 → get_ngrams q = ∅.
Proof.
  intros Hlen. unfold get_ngrams.
  replace (String.length q + 1 - 3) with 0 by lia. done.
Qed.

Lemma iter_order_empty : iter_order ∅ = [].
Proof.
  apply Permutation_nil_r. rewrite (iter_order_perm ∅). by rewrite elements_empty.
Qed.

Lemma get_fuzzy_match_short q : String.length q < 3 → get_fuzzy_match q = Ok None.
Proof.
  intros Hlen. unfold get_fuzzy_match, candidate_to_jaccard.
  rewrite get_ngrams_short by done. by rewrite iter_order_empty.
Qed.

(** ** The run of find_drugs *)

Lemma place_app n vs1 vs2 :
  place n (vs1 ++ vs2) = place n vs1 ++ place (n + length vs1) vs2.
Proof.
  revert n. induction vs1 as [|v vs1 IH]; intros n; simpl.
  - by rewrite Nat.add_0_r.
  - rewrite IH. do 3 f_equal. lia.
Qed.

Lemma place_length n vs : length (place n vs) = length vs.
Proof. revert n. induction vs; intros; simpl; auto. Qed.

Lemma push_nil st : push st [] = st.
Proof. destruct st. unfold push. simpl. by rewrite app_nil_r. Qed.

Lemma push_push st ds1 ds2 : push (push st ds1) ds2 = push st (ds1 ++ ds2).
Proof. unfold push. simpl. by rewrite app_assoc. Qed.

Lemma frame_refl st : frame st st.
Proof. by split_and!. Qed.

Lemma frame_trans st1 st2 st3 : frame st1 st2 → frame st2 st3 → frame st1 st3.
Proof.
  intros (H1 & H2 & H3) (H1' & H2' & H3'). split_and!; [by etrans | congruence..].
Qed.

Lemma frame_push st ds : frame st (push st ds).
Proof. split_and!; [by apply prefix_app_r | done..]. Qed.

Lemma merged_prefix h0 h m variant :
  store_wf h0 → h0 `prefix_of` h → merged h m variant = merged h0 m variant.
Proof.
  intros Hwf Hpre. unfold merged.
  destruct (drug_canonical_to_data !! m) as [l|] eqn:Hl; [|done].
  by rewrite (prefix_lookup_lt h0 h l (Hwf _ _ Hl) Hpre).
Qed.

Lemma match_data_for_run h0 st m variant :
  store_wf h0 → h0 `prefix_of` heap st →
  match_data_for m variant st
  = match merged h0 m variant with
    | Ok d => (Ok (length (heap st)), push st [d])
    | Raise e => (Raise e, st)
    end.
Proof.
  intros Hwf Hpre. rewrite <- (merged_prefix h0 (heap st)) by done.
  unfold match_data_for, merged.
  destruct (drug_canonical_to_data !! m) as [l|]; done.
Qed.

Lemma write_push st ds d k v :
  write (length (heap st) + length ds) k v (push st (ds ++ [d]))
  = (Ok (), push st (ds ++ [<[k := v]> d])).
Proof.
  unfold write, push. simpl. do 2 f_equal.
  rewrite alter_app_r. f_equal.
  replace (length ds) with (length ds + 0) by lia. by rewrite alter_app_r.
Qed.

Lemma emits_ret {B} h0 (dm : B → list mention) (b : B) (R : B → Prop) :
  R b → emits h0 dm (mret b) (dm b) R (Ok []).
Proof.
  intros HR st _. simpl. exists []. by rewrite app_nil_r, push_nil.
Qed.

Lemma emits_raise {B} h0 (dm : B → list mention) acc (R : B → Prop) e :
  emits h0 dm (raise e) acc R (Raise e).
Proof. intros st _. simpl. split; [done | apply frame_refl]. Qed.

Lemma emits_exact h0 variant start stop acc m :
  store_wf h0 →
  emits h0 id
    (match_data ← match_data_for m variant;
     mret (acc ++ [(match_data, start, stop)]))
    acc (λ _, True)
    (d ← merged h0 m variant; Ok [(d, start, stop)]).
Proof.
  intros Hwf st Hpre. unfold mbind, M_bind.
  rewrite (match_data_for_run h0) by done.
  destruct (merged h0 m variant) as [d|e]; simpl.
  - by exists [(d, start, stop)].
  - split; [done | apply frame_refl].
Qed.

Lemma emits_fuzzy h0 variant similarity start stop acc m :
  store_wf h0 →
  emits h0 id (emit_fuzzy variant similarity start stop acc m) acc (λ _, True)
    (d ← merged h0 m variant; Ok [(fuzzy_fields similarity d, start, stop)]).
Proof.
  intros Hwf st Hpre. unfold emit_fuzzy, mbind, M_bind.
  rewrite (match_data_for_run h0) by done.
  destruct (merged h0 m variant) as [d|e]; cbv beta iota.
  - pose proof (write_push st [] d "match_type" (VStr "fuzzy")) as Hw1.
    cbn [app length] in Hw1. rewrite Nat.add_0_r in Hw1. rewrite Hw1.
    pose proof (write_push st [] (<["match_type" := VStr "fuzzy"]> d)
                  "match_similarity" (VFloat similarity)) as Hw2.
    cbn [app length] in Hw2. rewrite Nat.add_0_r in Hw2. rewrite Hw2.
    by exists [(fuzzy_fields similarity d, start, stop)].
  - split; [done | apply frame_refl].
Qed.

Lemma drop_cons_inv {A} (L : list A) i x l :
  drop i L = x :: l → L !! i = Some x ∧ drop (S i) L = l.
Proof.
  intros Hd. split.
  - rewrite <- (Nat.add_0_r i), <- lookup_drop, Hd. done.
  - replace (S i) with (i + 1) by lia. rewrite <- drop_drop, Hd. done.
Qed.

Lemma for_enumerate_emits {A B} h0 (dm : B → list mention) (f : B → nat → A → M B)
    (J : nat → B → Prop) (p : nat → A → res (list vmention)) (L : list A) :
  (∀ i x b, L !! i = Some x → J i b → emits h0 dm (f b i x) (dm b) (J (S i)) (p i x)) →
  ∀ l i0 b, drop i0 L = l → J i0 b →
    emits h0 dm (for_enumerate f i0 l b) (dm b) (J (i0 + length l)) (collect p i0 l).
Proof.
  intros Hstep l. induction l as [|x l IH]; intros i0 b Hdrop HJ.
  - simpl. rewrite Nat.add_0_r. by apply emits_ret.
  - apply drop_cons_inv in Hdrop as [Hx Hdrop].
    intros st Hpre. simpl. unfold mbind at 1, M_bind at 1.
    pose proof (Hstep i0 x b Hx HJ st Hpre) as H1.
    destruct (f b i0 x st) as [[b1|e] st1].
    + destruct H1 as (vs1 & -> & Hdm1 & HJ1 & ->). simpl.
      pose proof (IH (S i0) b1 Hdrop HJ1 (push st (vs1.*1.*1))) as H2.
      destruct (for_enumerate f (S i0) l b1 _) as [[b2|e] st2].
      * destruct H2 as (vs2 & -> & Hdm2 & HJ2 & ->); [by apply prefix_app_r|].
        simpl. exists (vs1 ++ vs2). split_and!; [done| | |].
        -- rewrite Hdm2, Hdm1, place_app, <- app_assoc. simpl.
           by rewrite length_app, !length_fmap.
        -- by replace (i0 + S (length l)) with (S i0 + length l) by lia.
        -- by rewrite push_push, !fmap_app.
      * destruct H2 as [-> Hfr]; [by apply prefix_app_r|]. simpl.
        split; [done|]. eapply frame_trans; [apply frame_push | done].
    + destruct H1 as [-> Hfr]. simpl. done.
Qed.

Lemma foldM_enumerate {A B} (f : B → A → M B) (l : list A) (b : B) i0 st :
  foldM f l b st = for_enumerate (λ b _ x, f b x) i0 l b st.
Proof.
  revert b i0 st. induction l as [|x l IH]; intros b i0 st; simpl; [done|].
  unfold mbind, M_bind. destruct (f b x st) as [[b1|e] st1]; [apply IH | done].
Qed.

Lemma emits_ext {B} h0 (dm : B → list mention) (c c' : M B) acc R p :
  (∀ st, c st = c' st) → emits h0 dm c' acc R p → emits h0 dm c acc R p.
Proof. intros Heq H st Hpre. rewrite Heq. by apply H. Qed.

Lemma emits_weaken {B} h0 (dm : B → list mention) (c : M B) acc (R R' : B → Prop) p :
  (∀ b, R b → R' b) → emits h0 dm c acc R p → emits h0 dm c acc R' p.
Proof.
  intros HR H st Hpre. specialize (H st Hpre).
  destruct (c st) as [[b|e] st']; [|done].
  destruct H as (vs & ? & ? & ? & ?). exists vs. split_and!; auto.
Qed.

Lemma foldM_emits {A B} h0 (dm : B → list mention) (f : B → A → M B)
    (J : nat → B → Prop) (p : A → res (list vmention)) (l : list A) (b : B) :
  (∀ i x b, J i b → emits h0 dm (f b x) (dm b) (J (S i)) (p x)) →
  J 0 b →
  emits h0 dm (foldM f l b) (dm b) (J (length l)) (collect (λ _, p) 0 l).
Proof.
  intros Hstep HJ.
  apply (emits_ext _ _ _ (for_enumerate (λ b _ x, f b x) 0 l b));
    [intros; apply foldM_enumerate|].
  apply (for_enumerate_emits h0 dm _ J (λ _, p) l); [|done|done].
  intros i x b' _ HJ'. by apply Hstep.
Qed.

Lemma fuzzy_branch_unfold cand_norm start stop acc st :
  fuzzy_branch cand_norm start stop acc st
  = match get_fuzzy_match cand_norm with
    | Raise e => (Raise e, st)
    | Ok None => (Ok acc, st)
    | Ok (Some (variant, similarity)) =>
        match dict_get drug_variant_to_canonical variant with
        | None => (Raise (KeyError variant), st)
        | Some match_ => foldM (emit_fuzzy variant similarity start stop) match_ acc st
        end
    end.
Proof.
  unfold fuzzy_branch, mbind, M_bind, lift.
  destruct (get_fuzzy_match cand_norm) as [[[variant similarity]|]|e]; try done.
  by destruct (dict_get drug_variant_to_canonical variant).
Qed.

Lemma fuzzy_branch_emits h0 cand_norm start stop acc :
  store_wf h0 →
  emits h0 id (fuzzy_branch cand_norm start stop acc) acc (λ _, True)
    (fuzzy_views h0 cand_norm start stop).
Proof.
  intros Hwf st Hpre. rewrite fuzzy_branch_unfold. unfold fuzzy_views.
  destruct (get_fuzzy_match cand_norm) as [[[variant similarity]|]|e]; simpl.
  - destruct (dict_get drug_variant_to_canonical variant) as [match_|].
    + apply (foldM_emits h0 id (emit_fuzzy variant similarity start stop)
               (λ _ _, True) _ match_ acc); [|done|done].
      intros _ m b _. by apply emits_fuzzy.
    + split; [done | apply frame_refl].
  - exists []. by rewrite app_nil_r, push_nil.
  - split; [done | apply frame_refl].
Qed.

Lemma exact_match_Some cand_norm match_ :
  exact_match cand_norm = Some match_ →
  dict_get drug_variant_to_canonical cand_norm = Some match_ ∧ match_ ≠ [].
Proof.
  unfold exact_match.
  destruct (dict_get drug_variant_to_canonical cand_norm) as [[|m l]|]; naive_solver.
Qed.

Lemma exact_match_None cand_norm :
  exact_match cand_norm = None →
  dict_get drug_variant_to_canonical cand_norm = None
  ∨ dict_get drug_variant_to_canonical cand_norm = Some [].
Proof.
  unfold exact_match.
  destruct (dict_get drug_variant_to_canonical cand_norm) as [[|m l]|]; naive_solver.
Qed.

Lemma excl_inv_true tokens i ex :
  excl_inv tokens i ex → exact_bigram tokens i = true →
  excl_inv tokens (S i) ({[i + 1]} ∪ ({[i]} ∪ ex)).
Proof.
  intros Hinv Hi j. rewrite !elem_of_union, !elem_of_singleton, (Hinv j). split.
  - intros [->|[->|(k & Hk & Hkb & Hj)]].
    + exists i. split_and!; [lia | done | by right].
    + exists i. split_and!; [lia | done | by left].
    + exists k. split_and!; [lia | done | done].
  - intros (k & Hk & Hkb & Hj). destruct (decide (k = i)) as [->|Hne].
    + destruct Hj; auto.
    + right. right. exists k. split_and!; [lia | done | done].
Qed.

Lemma excl_inv_false tokens i ex :
  excl_inv tokens i ex → exact_bigram tokens i = false →
  excl_inv tokens (S i) ex.
Proof.
  intros Hinv Hi j. rewrite (Hinv j). split.
  - intros (k & Hk & Hkb & Hj). exists k. split_and!; [lia | done | done].
  - intros (k & Hk & Hkb & Hj). destruct (decide (k = i)) as [->|Hne]; [congruence|].
    exists k. split_and!; [lia | done | done].
Qed.

Lemma exact_bigram_eq tokens i token next :
  tokens !! i = Some token → tokens !! (i + 1) = Some next →
  exact_bigram tokens i
  = bool_decide (is_Some (exact_match (lower (String.append (String.append token " ") next)))).
Proof. intros Ht Hn. unfold exact_bigram, bigram_norm. rewrite Ht. simpl. by rewrite Hn. Qed.

Lemma emits_exact_pair h0 cand_norm i ex0 (n : nat) b m :
  store_wf h0 →
  b.2 = (if n is 0 then ex0 else {[i + 1]} ∪ ({[i]} ∪ ex0)) →
  emits h0 fst (emit_exact_pair cand_norm i b m) b.1
    (λ b', b'.2 = {[i + 1]} ∪ ({[i]} ∪ ex0))
    (d ← merged h0 m cand_norm; Ok [(d, i, i + 1)]).
Proof.
  intros Hwf Hb st Hpre. destruct b as [dm ex]. simpl in Hb.
  unfold emit_exact_pair, mbind, M_bind.
  rewrite (match_data_for_run h0) by done.
  destruct (merged h0 m cand_norm) as [d|e]; simpl.
  - exists [(d, i, i + 1)]. split_and!; try done.
    destruct n; subst ex; set_solver.
  - split; [done | apply frame_refl].
Qed.

Lemma bigram_step_emits h0 tokens is_fuzzy_match b i token :
  store_wf h0 →
  tokens !! i = Some token →
  excl_inv tokens i b.2 →
  emits h0 fst (bigram_step tokens is_fuzzy_match b i token) b.1
    (λ b', excl_inv tokens (S i) b'.2)
    (bigram_views h0 tokens is_fuzzy_match i token).
Proof.
  intros Hwf Ht Hinv. unfold bigram_step, bigram_views.
  destruct (tokens !! (i + 1)) as [next|] eqn:Hnext; [|apply emits_raise].
  pose proof (exact_bigram_eq tokens i token next Ht Hnext) as Hex.
  set (cand_norm := lower _) in *. unfold exact_match in *.
  destruct (dict_get drug_variant_to_canonical cand_norm) as [[|m0 match_]|] eqn:Hget.
  - (* an empty list of canonical ids *)
    rewrite bool_decide_eq_false_2 in Hex by (intros [? ?]; done).
    destruct is_fuzzy_match.
    + intros st Hpre. unfold mbind, M_bind.
      pose proof (fuzzy_branch_emits h0 cand_norm i (i + 1) b.1 Hwf st Hpre) as H.
      destruct (fuzzy_branch _ _ _ _ st) as [[dm'|e] st']; [|done].
      destruct H as (vs & ? & ? & _ & ?). exists vs. split_and!; try done.
      simpl. by apply excl_inv_false.
    + apply emits_ret. by apply excl_inv_false.
  - rewrite bool_decide_eq_true_2 in Hex by eauto.
    eapply emits_weaken;
      [|apply (foldM_emits h0 fst (emit_exact_pair cand_norm i)
                 (λ n b', b'.2 = if n is 0 then b.2 else {[i + 1]} ∪ ({[i]} ∪ b.2))
                 (λ m, d ← merged h0 m cand_norm; Ok [(d, i, i + 1)])
                 (m0 :: match_) b); [|done]].
    + simpl. intros b' ->. by apply excl_inv_true.
    + intros n m b' Hb'. by apply (emits_exact_pair h0 cand_norm i b.2 n).
  - rewrite bool_decide_eq_false_2 in Hex by (intros [? ?]; done).
    destruct is_fuzzy_match.
    + intros st Hpre. unfold mbind, M_bind.
      pose proof (fuzzy_branch_emits h0 cand_norm i (i + 1) b.1 Hwf st Hpre) as H.
      destruct (fuzzy_branch _ _ _ _ st) as [[dm'|e] st']; [|done].
      destruct H as (vs & ? & ? & _ & ?). exists vs. split_and!; try done.
      simpl. by apply excl_inv_false.
    + apply emits_ret. by apply excl_inv_false.
Qed.

Lemma emits_exact_unigram h0 cand_norm i acc m :
  store_wf h0 →
  emits h0 id (emit_exact cand_norm i acc m) acc (λ _, True)
    (d ← merged h0 m cand_norm; Ok [(d, i, i)]).
Proof. intros Hwf. by apply emits_exact. Qed.

Lemma unigram_step_emits h0 tokens is_fuzzy_match is_exclude acc i token :
  store_wf h0 →
  (i ∈ is_exclude ↔ excluded tokens i = true) →
  emits h0 id (unigram_step is_fuzzy_match is_exclude acc i token) acc (λ _, True)
    (unigram_views h0 tokens is_fuzzy_match i token).
Proof.
  intros Hwf Hex. unfold unigram_step, unigram_views.
  destruct (excluded tokens i) eqn:Hexcl.
  - rewrite bool_decide_eq_true_2 by (by apply Hex). by apply (emits_ret h0 id).
  - rewrite bool_decide_eq_false_2 by (rewrite Hex; congruence).
    unfold exact_match.
    destruct (dict_get drug_variant_to_canonical (lower token)) as [[|m0 match_]|].
    + destruct is_fuzzy_match; [by apply fuzzy_branch_emits | by apply (emits_ret h0 id)].
    + apply (foldM_emits h0 id (emit_exact (lower token) i) (λ _ _, True) _
               (m0 :: match_) acc); [|done].
      intros _ m b _. by apply emits_exact_unigram.
    + destruct is_fuzzy_match; [by apply fuzzy_branch_emits | by apply (emits_ret h0 id)].
Qed.

Lemma removelast_lookup (tokens : list string) i token :
  removelast tokens !! i = Some token →
  tokens !! i = Some token ∧ i + 1 < length tokens.
Proof.
  rewrite removelast_firstn_len. intros H.
  apply lookup_take_Some in H as [H Hlt]. split; [done|]. lia.
Qed.

Lemma removelast_length (tokens : list string) :
  length (removelast tokens) = length tokens - 1.
Proof. rewrite removelast_firstn_len, length_take. lia. Qed.

Lemma exact_bigram_lt tokens i : exact_bigram tokens i = true → i + 1 < length tokens.
Proof.
  unfold exact_bigram, bigram_norm. intros H. apply bool_decide_eq_true in H as [l H].
  destruct (tokens !! i) as [t|]; [|done]. simpl in H.
  destruct (tokens !! (i + 1)) as [n|] eqn:Hn; [|done].
  by apply lookup_lt_Some in Hn.
Qed.

Lemma excl_inv_final tokens ex i :
  excl_inv tokens (length tokens - 1) ex → (i ∈ ex ↔ excluded tokens i = true).
Proof.
  intros Hinv. rewrite (Hinv i). unfold excluded. rewrite orb_true_iff. split.
  - intros (k & _ & Hk & [->| ->]); [by left|]. right.
    by replace (k + 1) with (S k) by lia.
  - intros [Hi|Hi].
    + exists i. pose proof (exact_bigram_lt _ _ Hi). split_and!; [lia | done | by left].
    + destruct i as [|j]; [done|].
      exists j. pose proof (exact_bigram_lt _ _ Hi). split_and!; [lia | done | right; lia].
Qed.

Lemma bigram_pass_emits h0 tokens is_fuzzy_match dm ex :
  store_wf h0 →
  excl_inv tokens 0 ex →
  emits h0 fst (bigram_pass tokens is_fuzzy_match dm ex) dm
    (λ b, excl_inv tokens (length tokens - 1) b.2)
    (bigram_pass_views h0 tokens is_fuzzy_match).
Proof.
  intros Hwf Hex. unfold bigram_pass, bigram_pass_views.
  rewrite <- removelast_length.
  pose proof (for_enumerate_emits h0 fst (bigram_step tokens is_fuzzy_match)
                (λ i b, excl_inv tokens i b.2)
                (bigram_views h0 tokens is_fuzzy_match) (removelast tokens)) as H.
  apply (λ Hs, H Hs (removelast tokens) 0 (dm, ex) eq_refl Hex).
  intros i x b Hx Hb. apply removelast_lookup in Hx as [Hx _].
  by apply bigram_step_emits.
Qed.

Lemma unigram_pass_emits h0 tokens is_fuzzy_match ex dm :
  store_wf h0 →
  excl_inv tokens (length tokens - 1) ex →
  emits h0 id (unigram_pass tokens is_fuzzy_match ex dm) dm (λ _, True)
    (unigram_pass_views h0 tokens is_fuzzy_match).
Proof.
  intros Hwf Hex. unfold unigram_pass, unigram_pass_views.
  pose proof (for_enumerate_emits h0 id (unigram_step is_fuzzy_match ex)
                (λ _ _, True) (unigram_views h0 tokens is_fuzzy_match) tokens) as H.
  apply (λ Hs, H Hs tokens 0 dm eq_refl I).
  intros i x b _ _. apply unigram_step_emits; [done|]. by apply excl_inv_final.
Qed.

(** The structures (lines 181-187) *)

Lemma add_structure_step st ds1 d rest start stop :
  add_structure () (length (heap st) + length ds1, start, stop) (push st (ds1 ++ d :: rest))
  = match with_structure (dbid_to_mol_lookup st) d with
    | Ok d' => (Ok (), push st (ds1 ++ d' :: rest))
    | Raise e => (Raise e, push st (ds1 ++ d :: rest))
    end.
Proof.
  unfold add_structure, with_structure, mbind, M_bind, read. simpl.
  rewrite lookup_app_r, Nat.add_comm, Nat.add_sub by lia.
  rewrite list_lookup_middle by done. simpl.
  assert (∀ v, write (length ds1 + length (heap st)) "structure_mol" v
                 (push st (ds1 ++ d :: rest))
               = (Ok (), push st (ds1 ++ <["structure_mol" := v]> d :: rest))) as Hw.
  { intros v. unfold write, push. simpl. do 2 f_equal.
    rewrite Nat.add_comm, alter_app_r. f_equal.
    replace (length ds1) with (length ds1 + 0) by lia. by rewrite alter_app_r. }
  destruct (d !! "drugbank_id") as [[| |k| |]|]; try done.
  unfold get_lookup. simpl.
  destruct (dbid_to_mol_lookup st !! k) as [[| | | |]|]; try done; apply Hw.
Qed.

Lemma add_structure_run st ds1 vs2 :
  match foldM add_structure (place (length (heap st) + length ds1) vs2) ()
          (push st (ds1 ++ vs2.*1.*1)) with
  | (Ok _, st') =>
      ∃ vs2', structure_views (dbid_to_mol_lookup st) vs2 = Ok vs2'
              ∧ st' = push st (ds1 ++ vs2'.*1.*1)
              ∧ place (length (heap st) + length ds1) vs2'
                = place (length (heap st) + length ds1) vs2
  | (Raise e, st') =>
      structure_views (dbid_to_mol_lookup st) vs2 = Raise e ∧ frame st st'
  end.
Proof.
  revert ds1. induction vs2 as [|[[d start] stop] vs2 IH]; intros ds1; simpl.
  - by exists [].
  - unfold mbind at 1, M_bind at 1. rewrite add_structure_step.
    destruct (with_structure (dbid_to_mol_lookup st) d) as [d'|e]; simpl.
    + specialize (IH (ds1 ++ [d'])).
      rewrite length_app, <- app_assoc in IH. simpl in IH.
      replace (length (heap st) + (length ds1 + 1))
        with (S (length (heap st) + length ds1)) in IH by lia.
      destruct (foldM add_structure _ () _) as [[[]|e] st'].
      * destruct IH as (vs2' & -> & -> & Hpl). simpl.
        exists ((d', start, stop) :: vs2'). simpl.
        rewrite <- app_assoc. simpl. by rewrite Hpl.
      * destruct IH as [-> Hfr]. done.
    + split; [done | apply frame_push].
Qed.

Lemma load_structures_heap s : heap (load_structures s).2 = heap s.
Proof.
  unfold load_structures. case_bool_decide; [|done].
  destruct (if bool_decide _ then _ else _) as [[lines|]|e]; done.
Qed.

Lemma preload_heap is_include_structure s :
  heap (preload is_include_structure s).2 = heap s.
Proof. destruct is_include_structure; [apply load_structures_heap | done]. Qed.

Lemma excl_inv_0 tokens : excl_inv tokens 0 ∅.
Proof. intros j. split; [set_solver|]. intros (k & Hk & _). lia. Qed.

Lemma view_place (h : list dict) (vs : list vmention) :
  view (h ++ vs.*1.*1) (place (length h) vs) = vs.
Proof.
  revert h. induction vs as [|[[d start] stop] vs IH]; intros h; [done|].
  simpl. unfold view in *. simpl. f_equal.
  - by rewrite list_lookup_middle.
  - specialize (IH (h ++ [d])). rewrite <- app_assoc, length_app in IH. simpl in IH.
    by replace (length h + 1) with (S (length h)) in IH by lia.
Qed.

(** The run of [find_drugs] from a state [s]: after the structures are
    loaded (when asked for), it returns new objects, allocated in a row,
    whose contents and spans are those of [find_drugs_views]; it raises when
    [find_drugs_views] does; and it leaves every object of [s] as it is. *)
Lemma find_drugs_run tokens is_fuzzy_match is_ignore_case is_include_structure s :
  store_wf (heap s) →
  match preload is_include_structure s with
  | (Raise e, s1) =>
      find_drugs tokens is_fuzzy_match is_ignore_case is_include_structure s = (Raise e, s1)
  | (Ok _, s1) =>
      match find_drugs tokens is_fuzzy_match is_ignore_case is_include_structure s with
      | (Ok out, s') =>
          ∃ vs, find_drugs_views (heap s) (dbid_to_mol_lookup s1) tokens
                  is_fuzzy_match is_include_structure = Ok vs
                ∧ out = place (length (heap s)) vs
                ∧ s' = push s1 (vs.*1.*1)
      | (Raise e, s') =>
          find_drugs_views (heap s) (dbid_to_mol_lookup s1) tokens
            is_fuzzy_match is_include_structure = Raise e
          ∧ frame s1 s'
      end
  end.
Proof.
  intros Hwf. pose proof (preload_heap is_include_structure s) as Hheap.
  unfold find_drugs. fold (preload is_include_structure).
  destruct (preload is_include_structure s) as [[[]|e] s1] eqn:Hp;
    [|by unfold mbind at 1, M_bind at 1; rewrite Hp].
  unfold mbind at 1, M_bind at 1. rewrite Hp.
  simpl in Hheap. unfold find_drugs_views, scan_views.
  assert (heap s `prefix_of` heap s1) as Hpre1 by (by rewrite Hheap).
  pose proof (bigram_pass_emits (heap s) tokens is_fuzzy_match [] ∅ Hwf
                (excl_inv_0 tokens) s1 Hpre1) as H1.
  unfold mbind at 1, M_bind at 1.
  destruct (bigram_pass tokens is_fuzzy_match [] ∅ s1) as [[[dm ex]|e] s2];
    [|by destruct H1 as [-> ?]].
  destruct H1 as (vs1 & -> & Hdm & Hex & ->). simpl in Hdm, Hex. subst dm.
  pose proof (unigram_pass_emits (heap s) tokens is_fuzzy_match ex
                (place (length (heap s1)) vs1) Hwf Hex (push s1 (vs1.*1.*1))) as H2.
  unfold mbind at 1, M_bind at 1.
  destruct (unigram_pass _ _ _ _ _) as [[dm2|e] s3].
  2:{ destruct H2 as [-> Hfr]; [by etrans; [|apply prefix_app_r]|].
      simpl. split; [done|]. eapply frame_trans; [apply frame_push | done]. }
  destruct H2 as (vs2 & -> & Hdm2 & _ & ->); [by etrans; [|apply prefix_app_r]|].
  simpl in Hdm2. subst dm2. simpl.
  rewrite push_push, <- fmap_app, <- fmap_app.
  replace (length (heap s1 ++ vs1.*1.*1)) with (length (heap s1) + length vs1)
    by (by rewrite length_app, !length_fmap).
  rewrite <- place_app. rewrite <- Hheap.
  destruct is_include_structure.
  - unfold mbind at 1, M_bind at 1.
    pose proof (add_structure_run s1 [] (vs1 ++ vs2)) as H3. simpl in H3.
    rewrite Nat.add_0_r in H3.
    destruct (foldM add_structure _ () _) as [[[]|e] s4].
    + destruct H3 as (vs' & -> & -> & Hpl). simpl. exists vs'. by rewrite Hpl.
    + destruct H3 as [-> Hfr]. done.
  - simpl. by exists (vs1 ++ vs2).
Qed.

(** ** The returned list, by value *)

Lemma merged_Ok h m variant d :
  merged h m variant = Ok d → d = merged_dict h m variant.
Proof.
  unfold merged, merged_dict. destruct (drug_canonical_to_data !! m); [|done].
  simpl. by intros [= <-].
Qed.

Lemma collect_singletons (g : dict → dict) h variant start stop i0 ms vs :
  collect (λ _ m, d ← merged h m variant; Ok [(g d, start, stop)]) i0 ms = Ok vs →
  vs = (λ m, (g (merged_dict h m variant), start, stop)) <$> ms.
Proof.
  revert i0 vs. induction ms as [|m ms IH]; intros i0 vs; simpl.
  - by intros [= <-].
  - destruct (merged h m variant) as [d|e] eqn:Hd; simpl; [|done].
    destruct (collect _ (S i0) ms) as [rest|e] eqn:Hrest; simpl; [|done].
    intros [= <-]. rewrite (merged_Ok _ _ _ _ Hd), (IH _ _ Hrest). done.
Qed.

Lemma exact_views_spec h variant start stop ms vs :
  exact_views h variant start stop ms = Ok vs →
  vs = (λ m, (merged_dict h m variant, start, stop)) <$> ms.
Proof. apply (collect_singletons id). Qed.

Lemma fuzzy_views_spec h cand_norm start stop vs :
  fuzzy_views h cand_norm start stop = Ok vs →
  match get_fuzzy_match cand_norm with
  | Ok (Some (variant, similarity)) =>
      ∃ ms, dict_get drug_variant_to_canonical variant = Some ms
            ∧ vs = (λ m, (fuzzy_fields similarity (merged_dict h m variant), start, stop))
                     <$> ms
  | Ok None => vs = []
  | Raise _ => False
  end.
Proof.
  unfold fuzzy_views.
  destruct (get_fuzzy_match cand_norm) as [[[variant similarity]|]|e]; simpl.
  - destruct (dict_get drug_variant_to_canonical variant) as [ms|]; [|done].
    intros H. exists ms. split; [done|].
    by apply (collect_singletons (fuzzy_fields similarity)) in H.
  - by intros [= <-].
  - done.
Qed.

Lemma structure_views_spec lookup vs vs' :
  structure_views lookup vs = Ok vs' →
  vs' = (λ v : vmention, (structured lookup v.1.1, v.1.2, v.2)) <$> vs.
Proof.
  revert vs'. induction vs as [|v vs IH]; intros vs'; simpl.
  - by intros [= <-].
  - unfold structured at 1.
    destruct (with_structure lookup v.1.1) as [d|e]; simpl; [|done].
    destruct (structure_views lookup vs) as [rest|e]; simpl; [|done].
    intros [= <-]. by rewrite (IH rest).
Qed.

Lemma collect_ext {A} (p p' : nat → A → res (list vmention)) i0 l :
  (∀ j x, p j x = p' j x) → collect p i0 l = collect p' i0 l.
Proof.
  intros Hext. revert i0. induction l as [|x l IH]; intros i0; simpl; [done|].
  by rewrite Hext, IH.
Qed.

Lemma collect_total {A} (p : nat → A → res (list vmention)) i0 l :
  (∀ j x, l !! j = Some x → ∃ vsj, p (i0 + j) x = Ok vsj) →
  ∃ vs, collect p i0 l = Ok vs.
Proof.
  revert i0. induction l as [|x l IH]; intros i0 Hp; simpl; [by eexists|].
  destruct (Hp 0 x eq_refl) as [vs0 H0]. rewrite Nat.add_0_r in H0. rewrite H0. simpl.
  destruct (IH (S i0)) as [rest Hrest].
  { intros j y Hy. destruct (Hp (S j) y Hy) as [vsj Hj].
    exists vsj. by replace (S i0 + j) with (i0 + S j) by lia. }
  rewrite Hrest. simpl. by eexists.
Qed.

Lemma collect_Forall {A} (p : nat → A → res (list vmention)) (P : vmention → Prop)
    i0 l vs :
  collect p i0 l = Ok vs →
  (∀ j x vsj, l !! j = Some x → p (i0 + j) x = Ok vsj → Forall P vsj) →
  Forall P vs.
Proof.
  revert i0 vs. induction l as [|x l IH]; intros i0 vs; simpl.
  - intros [= <-] _. constructor.
  - destruct (p i0 x) as [vs0|e] eqn:H0; simpl; [|done].
    destruct (collect p (S i0) l) as [rest|e] eqn:Hrest; simpl; [|done].
    intros [= <-] Hp. apply Forall_app. split.
    + apply (Hp 0 x); [done | by rewrite Nat.add_0_r].
    + apply (IH _ _ Hrest). intros j y vsj Hy Hj.
      apply (Hp (S j) y); [done | by replace (i0 + S j) with (S i0 + j) by lia].
Qed.

Lemma filter_none {A} (P : A → Prop) `{!∀ x, Decision (P x)} (l : list A) :
  Forall (λ x, ¬ P x) l → filter P l = [].
Proof.
  induction 1 as [|x l Hx _ IH]; [done|]. by rewrite filter_cons_False.
Qed.

Lemma filter_all {A} (P : A → Prop) `{!∀ x, Decision (P x)} (l : list A) :
  Forall P l → filter P l = l.
Proof.
  induction 1 as [|x l Hx _ IH]; [done|]. by rewrite filter_cons_True, IH.
Qed.

(** Of a list gathered index by index, the part that starts at [i0 + j] is
    what the index [i0 + j] gave. *)
Lemma collect_at {A} (p : nat → A → res (list vmention)) i0 l vs :
  collect p i0 l = Ok vs →
  (∀ j x vsj, l !! j = Some x → p (i0 + j) x = Ok vsj →
     Forall (λ v, v.1.2 = i0 + j) vsj) →
  ∀ j, filter (λ v : vmention, v.1.2 = i0 + j) vs
       = match l !! j with
         | Some x => match p (i0 + j) x with Ok vsj => vsj | Raise _ => [] end
         | None => []
         end.
Proof.
  revert i0 vs. induction l as [|x l IH]; intros i0 vs; simpl.
  - intros [= <-] _ j. done.
  - destruct (p i0 x) as [vs0|e] eqn:H0; simpl; [|done].
    destruct (collect p (S i0) l) as [rest|e] eqn:Hrest; simpl; [|done].
    intros [= <-] Hp j. rewrite filter_app.
    assert (Forall (λ v : vmention, v.1.2 = i0) vs0) as Hvs0.
    { pose proof (Hp 0 x vs0 eq_refl) as H. rewrite Nat.add_0_r in H. by apply H. }
    assert (∀ k y vsk, l !! k = Some y → p (S i0 + k) y = Ok vsk →
              Forall (λ v : vmention, v.1.2 = S i0 + k) vsk) as Hp'.
    { intros k y vsk Hy Hk. replace (S i0 + k) with (i0 + S k) in * by lia.
      by apply (Hp (S k) y). }
    destruct j as [|j].
    + rewrite Nat.add_0_r. simpl. rewrite H0, filter_all by done.
      rewrite filter_none; [by rewrite app_nil_r|].
      eapply Forall_impl;
        [apply (collect_Forall p (λ v, S i0 ≤ v.1.2) _ _ _ Hrest)|].
      * intros k y vsk Hy Hk. eapply Forall_impl; [by apply (Hp' k y)|].
        simpl. intros v ->. lia.
      * simpl. intros v Hv. lia.
    + rewrite filter_none.
      2:{ eapply Forall_impl; [done|]. simpl. intros v ->. lia. }
      simpl. specialize (IH _ _ Hrest Hp' j).
      by replace (i0 + S j) with (S i0 + j) by lia.
Qed.

Lemma collect_each {A} (p : nat → A → res (list vmention)) i0 l vs j x :
  collect p i0 l = Ok vs → l !! j = Some x → ∃ vsj, p (i0 + j) x = Ok vsj.
Proof.
  revert i0 vs j. induction l as [|y l IH]; intros i0 vs j; simpl; [done|].
  destruct (p i0 y) as [vs0|e] eqn:H0; simpl; [|done].
  destruct (collect p (S i0) l) as [rest|e] eqn:Hrest; simpl; [|done].
  intros _. destruct j as [|j]; simpl.
  - intros [= <-]. rewrite Nat.add_0_r. by eexists.
  - intros Hx. destruct (IH _ _ _ Hrest Hx) as [vsj Hj].
    exists vsj. by replace (i0 + S j) with (S i0 + j) by lia.
Qed.

Lemma bigram_views_spans h tokens is_fuzzy_match j x vsj :
  tokens !! j = Some x →
  bigram_views h tokens is_fuzzy_match j x = Ok vsj →
  Forall (λ v : vmention,
            v.1.2 = j ∧ v.2 = j + 1
            ∧ (is_fuzzy_match = false → exact_bigram tokens j = true)) vsj.
Proof.
  intros Hx. unfold bigram_views.
  destruct (tokens !! (j + 1)) as [next|] eqn:Hnext; [|done].
  rewrite (exact_bigram_eq tokens j x next Hx Hnext).
  destruct (exact_match _) as [ms|] eqn:Hm.
  - intros H. rewrite (exact_views_spec _ _ _ _ _ _ H).
    apply Forall_fmap, Forall_forall. intros m _. simpl.
    split_and!; [done..|]. intros _. first [done | apply bool_decide_eq_true; eauto].
  - destruct is_fuzzy_match; [|by intros [= <-]].
    intros H. apply fuzzy_views_spec in H.
    destruct (get_fuzzy_match _) as [[[variant similarity]|]|e]; [| |done].
    + destruct H as (ms & _ & ->). apply Forall_fmap, Forall_forall.
      intros m _. simpl. split_and!; done.
    + subst. constructor.
Qed.

Lemma unigram_views_spans h tokens is_fuzzy_match j x vsj :
  unigram_views h tokens is_fuzzy_match j x = Ok vsj →
  Forall (λ v : vmention,
            v.1.2 = j ∧ excluded tokens j = false
            ∧ (v.2 = j ∨ (is_fuzzy_match = true ∧ v.2 = j + 1))) vsj.
Proof.
  unfold unigram_views. destruct (excluded tokens j) eqn:Hex; [by intros [= <-]|].
  destruct (exact_match _) as [ms|] eqn:Hm.
  - intros H. rewrite (exact_views_spec _ _ _ _ _ _ H).
    apply Forall_fmap, Forall_forall. intros m _. simpl. split_and!; auto.
  - destruct is_fuzzy_match; [|by intros [= <-]].
    intros H. apply fuzzy_views_spec in H.
    destruct (get_fuzzy_match _) as [[[variant similarity]|]|e]; [| |done].
    + destruct H as (ms & _ & ->). apply Forall_fmap, Forall_forall.
      intros m _. simpl. split_and!; auto.
    + subst. constructor.
Qed.

Lemma bigram_pass_spans h tokens is_fuzzy_match vs :
  bigram_pass_views h tokens is_fuzzy_match = Ok vs →
  Forall (λ v : vmention,
            v.2 = v.1.2 + 1
            ∧ (is_fuzzy_match = false → exact_bigram tokens v.1.2 = true)) vs.
Proof.
  intros H. apply (collect_Forall _ _ _ _ _ H). intros j x vsj Hx Hj.
  apply removelast_lookup in Hx as [Hx _].
  eapply Forall_impl; [by apply (bigram_views_spans _ _ _ _ _ _ Hx Hj)|].
  simpl. intros v (-> & -> & ?). done.
Qed.

Lemma unigram_pass_spans h tokens is_fuzzy_match vs :
  unigram_pass_views h tokens is_fuzzy_match = Ok vs →
  Forall (λ v : vmention,
            excluded tokens v.1.2 = false
            ∧ (v.2 = v.1.2 ∨ (is_fuzzy_match = true ∧ v.2 = v.1.2 + 1))) vs.
Proof.
  intros H. apply (collect_Forall _ _ _ _ _ H). intros j x vsj Hx Hj.
  eapply Forall_impl; [by apply (unigram_views_spans _ _ _ _ _ _ Hj)|].
  simpl. intros v (-> & ? & ?). done.
Qed.

Lemma Forall_place (P : nat → nat → Prop) n vs :
  Forall (λ v : vmention, P v.1.2 v.2) vs →
  Forall (λ m : mention, P m.1.2 m.2) (place n vs).
Proof.
  revert n. induction vs as [|v vs IH]; intros n H; simpl; [constructor|].
  apply Forall_cons in H as [Hv H]. constructor; auto.
Qed.

Lemma place_Forall (P : nat → nat → Prop) n vs :
  Forall (λ m : mention, P m.1.2 m.2) (place n vs) →
  Forall (λ v : vmention, P v.1.2 v.2) vs.
Proof.
  revert n. induction vs as [|v vs IH]; intros n; simpl; [constructor|].
  intros H. apply Forall_cons in H as [Hv H]. constructor; eauto.
Qed.

Lemma place_ge n vs : Forall (λ m : mention, n ≤ m.1.1) (place n vs).
Proof.
  revert n. induction vs as [|v vs IH]; intros n; simpl; constructor; [simpl; lia|].
  eapply Forall_impl; [apply IH|]. simpl. intros. lia.
Qed.

Lemma place_NoDup n vs : NoDup (place n vs).*1.*1.
Proof.
  revert n. induction vs as [|v vs IH]; intros n; simpl; constructor; [|apply IH].
  pose proof (place_ge (S n) vs) as Hge. rewrite Forall_forall in Hge.
  intros Hin. apply list_elem_of_fmap in Hin as ([l1 s1] & Heq & Hin).
  apply list_elem_of_fmap in Hin as ([[l2 s2] e2] & Heq' & Hin).
  specialize (Hge _ Hin). simpl in *. simplify_eq. lia.
Qed.

(** The two passes of a run of [find_drugs] that returns. *)
Lemma find_drugs_passes tokens is_fuzzy_match is_ignore_case is_include_structure s out s' :
  store_wf (heap s) →
  find_drugs tokens is_fuzzy_match is_ignore_case is_include_structure s = (Ok out, s') →
  ∃ sp vs1 vs2,
    preload is_include_structure s = (Ok (), sp)
    ∧ heap sp = heap s
    ∧ dbid_to_mol_lookup s' = dbid_to_mol_lookup sp
    ∧ bigram_pass_views (heap s) tokens is_fuzzy_match = Ok vs1
    ∧ unigram_pass_views (heap s) tokens is_fuzzy_match = Ok vs2
    ∧ out = place (length (heap s)) (vs1 ++ vs2)
    ∧ view (heap s') out
      = (λ v : vmention,
           (final is_include_structure (dbid_to_mol_lookup sp) v.1.1, v.1.2, v.2))
          <$> (vs1 ++ vs2)
    ∧ heap s `prefix_of` heap s'
    ∧ unigram_part tokens is_fuzzy_match is_include_structure s out
        (place (length (heap s) + length vs1) vs2).
Proof.
  intros Hwf Hrun. pose proof (preload_heap is_include_structure s) as Hheap.
  unfold find_drugs in Hrun. fold (preload is_include_structure) in Hrun.
  unfold mbind at 1, M_bind at 1 in Hrun.
  destruct (preload is_include_structure s) as [[[]|e] sp] eqn:Hp; [|done].
  simpl in Hheap.
  assert (heap s `prefix_of` heap sp) as Hpre1 by (by rewrite Hheap).
  pose proof (bigram_pass_emits (heap s) tokens is_fuzzy_match [] ∅ Hwf
                (excl_inv_0 tokens) sp Hpre1) as H1.
  unfold mbind at 1, M_bind at 1 in Hrun.
  destruct (bigram_pass tokens is_fuzzy_match [] ∅ sp) as [[[dm ex]|e] s2] eqn:Hb;
    [|done].
  destruct H1 as (vs1 & Hv1 & Hdm & Hex & ->). simpl in Hdm, Hex. subst dm.
  pose proof (unigram_pass_emits (heap s) tokens is_fuzzy_match ex
                (place (length (heap sp)) vs1) Hwf Hex (push sp (vs1.*1.*1))) as H2.
  unfold mbind at 1, M_bind at 1 in Hrun.
  destruct (unigram_pass _ _ _ _ _) as [[dm2|e] s3] eqn:Hu; [|done].
  destruct H2 as (vs2 & Hv2 & Hdm2 & _ & ->); [by etrans; [|apply prefix_app_r]|].
  simpl in Hdm2. subst dm2.
  rewrite push_push, <- fmap_app, <- fmap_app in Hrun.
  replace (length (heap sp ++ vs1.*1.*1)) with (length (heap sp) + length vs1)
    in * by (by rewrite length_app, !length_fmap).
  rewrite <- place_app in Hrun. rewrite Hheap in *.
  assert (unigram_part tokens is_fuzzy_match is_include_structure s
            (place (length (heap s)) (vs1 ++ vs2))
            (place (length (heap s) + length vs1) vs2)) as Hpart.
  { exists sp, (place (length (heap s)) vs1), ex, (push sp (vs1.*1.*1)),
      (push (push sp (vs1.*1.*1)) (vs2.*1.*1)).
    split_and!; [done | done | done | by rewrite place_app]. }
  exists sp, vs1, vs2.
  destruct is_include_structure.
  - unfold mbind at 1, M_bind at 1 in Hrun.
    pose proof (add_structure_run sp [] (vs1 ++ vs2)) as H3. simpl in H3.
    rewrite Nat.add_0_r, Hheap in H3.
    destruct (foldM add_structure _ () _) as [[[]|e] s4]; [|done].
    destruct H3 as (vs' & Hs & -> & Hpl). simpl in Hrun.
    injection Hrun as <- <-. split_and!; try done.
    + rewrite <- Hpl. unfold push. simpl. rewrite Hheap, view_place.
      by apply structure_views_spec.
    + unfold push. simpl. rewrite Hheap. by apply prefix_app_r.
  - simpl in Hrun. injection Hrun as <- <-. split_and!; try done.
    + unfold push. simpl. rewrite Hheap, view_place.
      apply list_eq. intros k. rewrite list_lookup_fmap.
      by destruct (_ !! k) as [[[? ?] ?]|].
    + unfold push. simpl. rewrite Hheap. by apply prefix_app_r.
Qed.

Lemma removelast_lookup_2 (tokens : list string) i token :
  tokens !! i = Some token → i + 1 < length tokens →
  removelast tokens !! i = Some token.
Proof.
  intros H Hlt. rewrite removelast_firstn_len. rewrite lookup_take_lt by lia. done.
Qed.

Lemma exact_match_intro cand_norm match_ :
  dict_get drug_variant_to_canonical cand_norm = Some match_ → match_ ≠ [] →
  exact_match cand_norm = Some match_.
Proof. unfold exact_match. intros ->. by destruct match_. Qed.

Lemma filter_fmap_start (F : dict → dict) i (vs : list vmention) :
  filter (λ v : vmention, v.1.2 = i) ((λ v : vmention, (F v.1.1, v.1.2, v.2)) <$> vs)
  = (λ v : vmention, (F v.1.1, v.1.2, v.2)) <$> filter (λ v : vmention, v.1.2 = i) vs.
Proof.
  induction vs as [|v vs IH]; [done|].
  rewrite fmap_cons, !filter_cons. simpl. case_decide; [|done].
  by rewrite fmap_cons, IH.
Qed.

Lemma bigram_pass_at h tokens is_fuzzy_match vs i token :
  bigram_pass_views h tokens is_fuzzy_match = Ok vs →
  tokens !! i = Some token → i + 1 < length tokens →
  bigram_views h tokens is_fuzzy_match i token
  = Ok (filter (λ v : vmention, v.1.2 = i) vs).
Proof.
  intros H Ht Hlt. pose proof (removelast_lookup_2 _ _ _ Ht Hlt) as Hr.
  destruct (collect_each _ _ _ _ _ _ H Hr) as [vsi Hi]. simpl in Hi.
  pose proof (collect_at _ _ _ _ H) as Hat. simpl in Hat.
  rewrite Hat, Hr, Hi; [done|].
  intros j x vsj Hx Hj. apply removelast_lookup in Hx as [Hx _].
  eapply Forall_impl; [by apply (bigram_views_spans _ _ _ _ _ _ Hx Hj)|].
  simpl. tauto.
Qed.

Lemma bigram_pass_beyond h tokens is_fuzzy_match vs i :
  bigram_pass_views h tokens is_fuzzy_match = Ok vs →
  length tokens ≤ i + 1 →
  filter (λ v : vmention, v.1.2 = i) vs = [].
Proof.
  intros H Hge. pose proof (collect_at _ _ _ _ H) as Hat. simpl in Hat.
  rewrite Hat.
  - rewrite lookup_ge_None_2; [done|]. rewrite removelast_length. lia.
  - intros j x vsj Hx Hj. apply removelast_lookup in Hx as [Hx _].
    eapply Forall_impl; [by apply (bigram_views_spans _ _ _ _ _ _ Hx Hj)|].
    simpl. tauto.
Qed.

Lemma unigram_pass_at h tokens is_fuzzy_match vs i token :
  unigram_pass_views h tokens is_fuzzy_match = Ok vs →
  tokens !! i = Some token →
  unigram_views h tokens is_fuzzy_match i token
  = Ok (filter (λ v : vmention, v.1.2 = i) vs).
Proof.
  intros H Ht.
  destruct (collect_each _ _ _ _ _ _ H Ht) as [vsi Hi]. simpl in Hi.
  pose proof (collect_at _ _ _ _ H) as Hat. simpl in Hat.
  rewrite Hat, Ht, Hi; [done|].
  intros j x vsj Hx Hj.
  eapply Forall_impl; [by apply (unigram_views_spans _ _ _ _ _ _ Hj)|].
  simpl. tauto.
Qed.



(** Decidable forms of the hypotheses on the store, for concrete stores. *)
Lemma store_wf_decide (h : list dict) :
  bool_decide (map_Forall (λ _ l, l < length h) drug_canonical_to_data) = true →
  store_wf h.
Proof. intros H m l Hl. apply bool_decide_eq_true in H. by apply (H m l). Qed.

Lemma dict_get_elem {V} (d : list (string * V)) k v : dict_get d k = Some v → (k, v) ∈ d.
Proof.
  induction d as [|[k' v'] d IH]; simpl; [done|].
  case_decide; subst.
  - intros [= <-]. apply elem_of_cons. by left.
  - intros Hget. apply elem_of_cons. right. by apply IH.
Qed.

Lemma vocabulary_closed_decide :
  bool_decide (Forall (λ kv : string * list string,
                         Forall (λ m, is_Some (drug_canonical_to_data !! m)) kv.2)
                 drug_variant_to_canonical) = true →
  vocabulary_closed.
Proof.
  intros H variant match_ m Hin Hm. apply bool_decide_eq_true in H.
  rewrite Forall_forall in H. specialize (H _ Hin). simpl in H.
  rewrite Forall_forall in H. by apply H.
Qed.

(** Without fuzzy matching, and on a closed vocabulary, the scan raises
    nothing. *)
Lemma exact_views_total h variant start stop ms :
  (∀ m, m ∈ ms → is_Some (drug_canonical_to_data !! m)) →
  ∃ vs, exact_views h variant start stop ms = Ok vs.
Proof.
  intros Hms. apply collect_total. intros j m Hm.
  destruct (Hms m) as [l Hl]; [by eapply list_elem_of_lookup_2|].
  unfold merged. rewrite Hl. simpl. by eexists.
Qed.

Lemma exact_match_closed cand_norm ms :
  vocabulary_closed → exact_match cand_norm = Some ms →
  ∀ m, m ∈ ms → is_Some (drug_canonical_to_data !! m).
Proof.
  intros Hcl Hm m Hin. apply exact_match_Some in Hm as [Hget _].
  apply dict_get_elem in Hget. by apply (Hcl _ _ _ Hget).
Qed.

(** When every 3-gram of the query is known, [get_fuzzy_match] returns. *)
Lemma count_candidates_total gs c :
  (∀ g, g ∈ gs → is_Some (ngram_to_variant the_index !! g)) →
  ∃ c', count_candidates gs c = Ok c'.
Proof.
  revert c. induction gs as [|g gs IH]; intros c Hgs; simpl; [by eexists|].
  destruct (Hgs g) as [cands ->]; [apply elem_of_cons; by left|].
  apply IH. intros g' Hg'. apply Hgs. apply elem_of_cons. by right.
Qed.

Lemma jaccard_all_total c :
  (∀ k n, (k, n) ∈ c →
     k ∈ drug_variant_to_canonical.*1 ∧ get_ngrams k ≠ ∅) →
  ∃ d, jaccard_all c = Ok d.
Proof.
  induction c as [|[k n] c IH]; intros Hc; simpl; [by eexists|].
  destruct (Hc k n) as [Hk Hne]; [apply elem_of_cons; by left|].
  rewrite the_index_eq, ngrams_spec, variant_to_ngrams_spec, decide_True by done.
  destruct (last (drug_variant_to_canonical.*1)) as [lastv|] eqn:Hlast.
  2:{ apply last_None in Hlast. rewrite Hlast in Hk. by apply elem_of_nil in Hk. }
  simpl. destruct (size (get_ngrams lastv ∪ get_ngrams k)) as [|j] eqn:Hsz.
  { apply size_empty_inv in Hsz. exfalso. apply Hne. set_solver. }
  destruct IH as [rest ->].
  { intros k' n' H'. apply (Hc k' n'). apply elem_of_cons. by right. }
  simpl. by eexists.
Qed.

Lemma candidate_to_jaccard_total q :
  NoDup (drug_variant_to_canonical.*1) →
  (∀ g, g ∈ get_ngrams q →
     ∃ v, v ∈ drug_variant_to_canonical.*1 ∧ g ∈ get_ngrams v) →
  ∃ d, candidate_to_jaccard q = Ok d.
Proof.
  intros Hkeys Hq. unfold candidate_to_jaccard.
  destruct (count_candidates_total (iter_order (get_ngrams q)) []) as [cnt Hcnt].
  { intros g Hg. apply iter_order_elem in Hg. destruct (Hq g Hg) as (v & Hv & Hgv).
    rewrite the_index_eq, ngram_to_variant_spec.
    destruct (indexed _ g) as [|v0 l] eqn:E; [|by eexists].
    assert (v ∈ indexed (drug_variant_to_canonical.*1) g) as Hin
      by (by apply indexed_elem).
    rewrite E in Hin. by apply elem_of_nil in Hin. }
  rewrite Hcnt. simpl. apply jaccard_all_total. intros k n Hkn.
  apply (count_candidates_spec _ _ _ Hkeys) in Hcnt as [Hwf Hval];
    [|split; [apply NoDup_nil_2 | constructor]].
  destruct (counter_wf_lookup _ _ _ Hwf Hkn) as [Hcv Hpos].
  rewrite Hval in Hcv. unfold cval in Hcv. simpl in Hcv.
  destruct (decide (k ∈ drug_variant_to_canonical.*1)) as [Hk|Hk]; [|lia].
  split; [done|]. rewrite hits_iter_order in Hcv. intros Hempty.
  rewrite Hempty in Hcv. replace (get_ngrams q ∩ ∅) with (∅ : gset string) in Hcv
    by set_solver.
  rewrite size_empty in Hcv. lia.
Qed.

Lemma get_fuzzy_match_total q :
  NoDup (drug_variant_to_canonical.*1) →
  (∀ g, g ∈ get_ngrams q →
     ∃ v, v ∈ drug_variant_to_canonical.*1 ∧ g ∈ get_ngrams v) →
  ∃ r, get_fuzzy_match q = Ok r
       ∧ ∀ c sim, r = Some (c, sim) → c ∈ drug_variant_to_canonical.*1.
Proof.
  intros Hkeys Hq. destruct (candidate_to_jaccard_total q Hkeys Hq) as [d Hd].
  rewrite get_fuzzy_match_unfold, Hd. simpl.
  destruct (top_of d) as [[c sim]|] eqn:Htop; [|by eexists].
  apply top_of_spec in Htop as [Hin _].
  destruct (candidate_to_jaccard_spec _ _ _ _ Hkeys Hd Hin)
    as (lastv & k & _ & Hc & -> & _).
  case_bool_decide; eexists; (split; [done|]); [|done].
  by intros c' sim' [= <- <-].
Qed.

Lemma dict_get_is_Some {V} (d : list (string * V)) k :
  k ∈ d.*1 → is_Some (dict_get d k).
Proof.
  induction d as [|[k' v'] d IH]; simpl; [by intros ?%elem_of_nil|].
  intros Hk. case_decide; [by eexists|].
  apply IH. apply elem_of_cons in Hk as [->|Hk]; done.
Qed.

Lemma fuzzy_views_total h cand_norm start stop :
  vocabulary_closed →
  NoDup (drug_variant_to_canonical.*1) →
  (∀ g, g ∈ get_ngrams cand_norm →
     ∃ v, v ∈ drug_variant_to_canonical.*1 ∧ g ∈ get_ngrams v) →
  ∃ vs, fuzzy_views h cand_norm start stop = Ok vs.
Proof.
  intros Hcl Hkeys Hq. unfold fuzzy_views.
  destruct (get_fuzzy_match_total cand_norm Hkeys Hq) as ([[variant similarity]|] & -> & Hv);
    simpl; [|by eexists].
  destruct (dict_get_is_Some drug_variant_to_canonical variant) as [ms Hms];
    [by eapply Hv|].
  rewrite Hms. apply collect_total. intros j m Hm.
  destruct (Hcl variant ms m) as [l Hl];
    [by apply dict_get_elem | by eapply list_elem_of_lookup_2 |].
  unfold merged. rewrite Hl. simpl. by eexists.
Qed.

(** On a closed vocabulary the scan raises nothing: without fuzzy matching,
    and with it when the variants are distinct and every 3-gram of every
    query is known. *)
Lemma scan_views_total h tokens is_fuzzy_match :
  vocabulary_closed →
  (is_fuzzy_match = true →
   NoDup (drug_variant_to_canonical.*1) ∧ answerable tokens) →
  ∃ vs, scan_views h tokens is_fuzzy_match = Ok vs.
Proof.
  intros Hcl Hfz. unfold scan_views.
  assert (∀ q start stop, is_query tokens q →
            ∃ vs, (if is_fuzzy_match then fuzzy_views h q start stop else Ok [])
                  = Ok vs) as Hfuzzy.
  { intros q start stop Hq. destruct is_fuzzy_match; [|by eexists].
    destruct (Hfz eq_refl) as [Hkeys Hans].
    apply fuzzy_views_total; [done..|]. intros g Hg. by apply (Hans q). }
  destruct (collect_total (bigram_views h tokens is_fuzzy_match) 0 (removelast tokens))
    as [vs1 H1].
  { intros j x Hx. apply removelast_lookup in Hx as [Hx Hlt]. simpl.
    unfold bigram_views.
    destruct (lookup_lt_is_Some_2 tokens (j + 1) Hlt) as [next Hn]. rewrite Hn.
    destruct (exact_match _) as [ms|] eqn:Hm.
    - apply exact_views_total. by eapply exact_match_closed.
    - apply Hfuzzy. left. exists j. unfold bigram_norm. rewrite Hx. simpl.
      by rewrite Hn. }
  destruct (collect_total (unigram_views h tokens is_fuzzy_match) 0 tokens) as [vs2 H2].
  { intros j x Hx. simpl. unfold unigram_views.
    destruct (excluded tokens j); [by eexists|].
    destruct (exact_match _) as [ms|] eqn:Hm.
    - apply exact_views_total. by eapply exact_match_closed.
    - apply Hfuzzy. right. by exists j, x. }
  unfold bigram_pass_views, unigram_pass_views. rewrite H1, H2. simpl. by eexists.
Qed.

(** When the structures are not asked for, [find_drugs] returns in these
    cases. *)
Lemma find_drugs_total tokens is_fuzzy_match is_ignore_case s :
  store_wf (heap s) → vocabulary_closed →
  (is_fuzzy_match = true →
   NoDup (drug_variant_to_canonical.*1) ∧ answerable tokens) →
  ∃ out s', find_drugs tokens is_fuzzy_match is_ignore_case false s = (Ok out, s').
Proof.
  intros Hwf Hcl Hfz.
  pose proof (find_drugs_run tokens is_fuzzy_match is_ignore_case false s Hwf) as Hrun.
  simpl in Hrun.
  destruct (find_drugs tokens is_fuzzy_match is_ignore_case false s) as [[out|e] s'];
    [by eexists _, _|].
  destruct Hrun as [Hv _]. unfold find_drugs_views in Hv.
  destruct (scan_views_total (heap s) tokens is_fuzzy_match Hcl Hfz) as [vs Hvs].
  rewrite Hvs in Hv. done.
Qed.

Lemma find_drugs_exact_total tokens is_ignore_case s :
  store_wf (heap s) → vocabulary_closed →
  ∃ out s', find_drugs tokens false is_ignore_case false s = (Ok out, s').
Proof. intros Hwf Hcl. by apply find_drugs_total. Qed.

(** C4: when the pair (i, i+1), joined by a space and lower-cased, is a
    variant of the vocabulary (with canonical ids), the mentions of the
    returned list that start at [i] are the exact mentions of the pair, one
    per canonical id and in their order, each spanning i..i+1 and carrying
    the merged record; and the second loop appends no mention that starts at
    [i] or at [i+1].  (With the default flags, and on a closed vocabulary,
    the call returns.) *)
Theorem exact_bigram_mentions tokens i token next match_ is_ignore_case s :
  store_wf (heap s) →
  tokens !! i = Some token →
  tokens !! (i + 1) = Some next →
  dict_get drug_variant_to_canonical
    (lower (String.append (String.append token " ") next)) = Some match_ →
  match_ ≠ [] →
  (vocabulary_closed →
   ∃ out s', find_drugs tokens false is_ignore_case false s = (Ok out, s'))
  ∧ ∀ is_fuzzy_match is_include_structure out s',
      find_drugs tokens is_fuzzy_match is_ignore_case is_include_structure s
      = (Ok out, s') →
      filter (λ v : vmention, v.1.2 = i) (view (heap s') out)
      = (λ m, (final is_include_structure (dbid_to_mol_lookup s')
                 (merged_dict (heap s) m
                    (lower (String.append (String.append token " ") next))),
               i, i + 1)) <$> match_
      ∧ ∃ out2,
          unigram_part tokens is_fuzzy_match is_include_structure s out out2
          ∧ Forall (λ m : mention, m.1.2 ≠ i ∧ m.1.2 ≠ i + 1) out2.
Proof.
  intros Hwf Ht Hn Hget Hne. split; [by apply find_drugs_exact_total|].
  intros is_fuzzy_match is_include_structure out s' Hrun.
  destruct (find_drugs_passes _ _ _ _ _ _ _ Hwf Hrun)
    as (sp & vs1 & vs2 & Hp & Hh & Hlk & H1 & H2 & Hout & Hview & Hpre & Hpart).
  pose proof (exact_match_intro _ _ Hget Hne) as Hm.
  assert (exact_bigram tokens i = true) as Hex.
  { rewrite (exact_bigram_eq _ _ _ _ Ht Hn), Hm. apply bool_decide_eq_true. eauto. }
  assert (excluded tokens i = true) as Hexi by (unfold excluded; by rewrite Hex).
  assert (excluded tokens (i + 1) = true) as Hexn.
  { unfold excluded. replace (i + 1) with (S i) by lia. rewrite Hex. apply orb_true_r. }
  split.
  - rewrite Hview, filter_fmap_start, filter_app, Hlk.
    pose proof (bigram_pass_at _ _ _ _ _ _ H1 Ht (lookup_lt_Some _ _ _ Hn)) as Hb.
    unfold bigram_views in Hb. rewrite Hn, Hm in Hb.
    apply exact_views_spec in Hb. rewrite Hb.
    pose proof (unigram_pass_at _ _ _ _ _ _ H2 Ht) as Hu.
    unfold unigram_views in Hu. rewrite Hexi in Hu. injection Hu as <-.
    rewrite app_nil_r, <- list_fmap_compose. done.
  - eexists. split; [done|].
    apply (Forall_place (λ start _, start ≠ i ∧ start ≠ i + 1)).
    eapply Forall_impl; [apply (unigram_pass_spans _ _ _ _ H2)|].
    simpl. intros v [Hv _]. split; intros Heq; rewrite Heq in Hv; congruence.
Qed.

Lemma not_excluded tokens i :
  excluded tokens i = false →
  exact_bigram tokens i = false
  ∧ ∀ j, i = S j → exact_bigram tokens j = false.
Proof.
  unfold excluded. intros H. apply orb_false_iff in H as [H1 H2].
  split; [done|]. by intros j ->.
Qed.

(** C6, amended: with fuzzy matching disabled, a token that no exact match
    of a pair covers and whose lower-cased form is a variant gets the
    unigram mentions of that variant, one per canonical id and in their
    order, each spanning exactly the token's index; and they are the only
    mentions that start there. *)
Theorem exact_unigram_mentions tokens i token match_ is_ignore_case s :
  store_wf (heap s) →
  vocabulary_closed →
  tokens !! i = Some token →
  dict_get drug_variant_to_canonical (lower token) = Some match_ →
  excluded tokens i = false →
  (∃ out s', find_drugs tokens false is_ignore_case false s = (Ok out, s'))
  ∧ ∀ is_include_structure out s',
      find_drugs tokens false is_ignore_case is_include_structure s = (Ok out, s') →
      filter (λ v : vmention, v.1.2 = i) (view (heap s') out)
      = (λ m, (final is_include_structure (dbid_to_mol_lookup s')
                 (merged_dict (heap s) m (lower token)), i, i)) <$> match_.
Proof.
  intros Hwf Hcl Ht Hget Hex. split; [by apply find_drugs_exact_total|].
  intros incl out s' Hrun.
  destruct (find_drugs_passes _ _ _ _ _ _ _ Hwf Hrun)
    as (sp & vs1 & vs2 & Hp & Hh & Hlk & H1 & H2 & Hout & Hview & Hpre & Hpart).
  destruct (not_excluded _ _ Hex) as [Hexi _].
  rewrite Hview, filter_fmap_start, filter_app, Hlk.
  assert (filter (λ v : vmention, v.1.2 = i) vs1 = []) as ->.
  { destruct (decide (i + 1 < length tokens)) as [Hlt|Hge].
    - pose proof (bigram_pass_at _ _ _ _ _ _ H1 Ht Hlt) as Hb.
      unfold bigram_views in Hb.
      destruct (lookup_lt_is_Some_2 tokens (i + 1) Hlt) as [next Hn].
      rewrite Hn in Hb. rewrite (exact_bigram_eq _ _ _ _ Ht Hn) in Hexi.
      destruct (exact_match _) as [ms|].
      + by rewrite bool_decide_eq_true_2 in Hexi by eauto.
      + by injection Hb as <-.
    - apply (bigram_pass_beyond _ _ _ _ _ H1). lia. }
  pose proof (unigram_pass_at _ _ _ _ _ _ H2 Ht) as Hu.
  unfold unigram_views in Hu. rewrite Hex in Hu. unfold exact_match in Hu.
  rewrite Hget in Hu. simpl. destruct match_ as [|m0 match_].
  - by injection Hu as <-.
  - apply exact_views_spec in Hu. rewrite Hu, <- list_fmap_compose. done.
Qed.

Lemma out_spans tokens is_fuzzy_match is_ignore_case is_include_structure s out s' :
  store_wf (heap s) →
  find_drugs tokens is_fuzzy_match is_ignore_case is_include_structure s = (Ok out, s') →
  Forall (λ m : mention,
            (m.2 = m.1.2 + 1
             ∧ (is_fuzzy_match = false → exact_bigram tokens m.1.2 = true))
            ∨ (excluded tokens m.1.2 = false
               ∧ (m.2 = m.1.2 ∨ (is_fuzzy_match = true ∧ m.2 = m.1.2 + 1)))) out.
Proof.
  intros Hwf Hrun.
  destruct (find_drugs_passes _ _ _ _ _ _ _ Hwf Hrun)
    as (sp & vs1 & vs2 & Hp & Hh & Hlk & H1 & H2 & -> & _).
  apply (Forall_place (λ start stop,
           (stop = start + 1 ∧ (is_fuzzy_match = false → exact_bigram tokens start = true))
           ∨ (excluded tokens start = false
              ∧ (stop = start ∨ (is_fuzzy_match = true ∧ stop = start + 1))))).
  apply Forall_app. split.
  - eapply Forall_impl; [apply (bigram_pass_spans _ _ _ _ H1)|]. simpl. tauto.
  - eapply Forall_impl; [apply (unigram_pass_spans _ _ _ _ H2)|]. simpl. tauto.
Qed.

(** C5, amended: a mention that spans a single index never lies in the
    span of an exact match of a pair; and with fuzzy matching disabled, two
    returned mentions that share a token index have the same span, or are
    the exact mentions of two pairs that start at adjacent indices. *)
Theorem mention_overlaps tokens is_fuzzy_match is_ignore_case is_include_structure s out s' :
  store_wf (heap s) →
  find_drugs tokens is_fuzzy_match is_ignore_case is_include_structure s = (Ok out, s') →
  (∀ m : mention, m ∈ out → m.2 = m.1.2 → excluded tokens m.1.2 = false)
  ∧ (is_fuzzy_match = false →
     ∀ (m1 m2 : mention) t,
       m1 ∈ out → m2 ∈ out →
       m1.1.2 ≤ t ≤ m1.2 → m2.1.2 ≤ t ≤ m2.2 →
       (m1.1.2 = m2.1.2 ∧ m1.2 = m2.2)
       ∨ (m1.2 = m1.1.2 + 1 ∧ m2.2 = m2.1.2 + 1
          ∧ exact_bigram tokens m1.1.2 = true ∧ exact_bigram tokens m2.1.2 = true
          ∧ (m1.1.2 = m2.1.2 + 1 ∨ m2.1.2 = m1.1.2 + 1))).
Proof.
  intros Hwf Hrun. pose proof (out_spans _ _ _ _ _ _ _ Hwf Hrun) as Hsp.
  rewrite Forall_forall in Hsp. split.
  - intros m Hm Heq. destruct (Hsp m Hm) as [[? _]|[? _]]; [lia | done].
  - intros -> m1 m2 t Hm1 Hm2 Ht1 Ht2.
    destruct (Hsp m1 Hm1) as [[He1 Hb1]|[Hx1 [He1|[? _]]]]; [| |done];
      destruct (Hsp m2 Hm2) as [[He2 Hb2]|[Hx2 [He2|[? _]]]]; try done.
    + specialize (Hb1 eq_refl). specialize (Hb2 eq_refl).
      destruct (decide (m1.1.2 = m2.1.2)); [left; lia | right].
      split_and!; try done. lia.
    + specialize (Hb1 eq_refl). exfalso.
      destruct (not_excluded _ _ Hx2) as [Hn1 Hn2].
      destruct (decide (m2.1.2 = m1.1.2)) as [Heq|Hne]; [congruence|].
      assert (m2.1.2 = S m1.1.2) as Heq by lia.
      specialize (Hn2 _ Heq). congruence.
    + specialize (Hb2 eq_refl). exfalso.
      destruct (not_excluded _ _ Hx1) as [Hn1 Hn2].
      destruct (decide (m1.1.2 = m2.1.2)) as [Heq|Hne]; [congruence|].
      assert (m1.1.2 = S m2.1.2) as Heq by lia.
      specialize (Hn2 _ Heq). congruence.
    + left. lia.
Qed.

(** ** Tokens that match nothing *)

Lemma M_bind_run {A B} (c : M A) (k : A → M B) s :
  (c ≫= k) s
  = match c s with
    | (Ok a, s') => k a s'
    | (Raise e, s') => (Raise e, s')
    end.
Proof. done. Qed.

Lemma for_enumerate_noop {A B} (f : B → nat → A → M B) (L : list A) :
  (∀ i x b st, L !! i = Some x → f b i x st = (Ok b, st)) →
  ∀ l i0 b st, drop i0 L = l → for_enumerate f i0 l b st = (Ok b, st).
Proof.
  intros Hf l. induction l as [|x l IH]; intros i0 b st Hdrop; simpl; [done|].
  apply drop_cons_inv in Hdrop as [Hx Hdrop].
  unfold mbind, M_bind. rewrite (Hf _ _ _ _ Hx). by apply IH.
Qed.

Lemma unigram_step_noop is_fuzzy_match is_exclude dm i token st :
  exact_match (lower token) = None →
  (is_fuzzy_match = true → get_fuzzy_match (lower token) = Ok None) →
  unigram_step is_fuzzy_match is_exclude dm i token st = (Ok dm, st).
Proof.
  intros Hm Hfz. unfold unigram_step. case_bool_decide; [done|].
  assert ((if is_fuzzy_match
           then fuzzy_branch (lower token) i (i + 1) dm
           else mret dm) st = (Ok dm, st)) as Hrest.
  { destruct is_fuzzy_match; [|done]. rewrite fuzzy_branch_unfold. by rewrite Hfz. }
  unfold exact_match in Hm.
  by destruct (dict_get drug_variant_to_canonical (lower token)) as [[|m0 ms]|].
Qed.

Lemma bigram_step_noop tokens is_fuzzy_match b i token st :
  removelast tokens !! i = Some token →
  (∀ cand, bigram_norm tokens i = Some cand →
     exact_match cand = None
     ∧ (is_fuzzy_match = true → get_fuzzy_match cand = Ok None)) →
  bigram_step tokens is_fuzzy_match b i token st = (Ok b, st).
Proof.
  intros Hx Hq. apply removelast_lookup in Hx as [Hx Hlt].
  destruct (lookup_lt_is_Some_2 tokens (i + 1) Hlt) as [next Hn].
  unfold bigram_step. rewrite Hn.
  destruct (Hq (lower (String.append (String.append token " ") next))) as [Hm Hfz].
  { unfold bigram_norm. rewrite Hx. simpl. by rewrite Hn. }
  set (cand_norm := lower _) in *.
  assert ((if is_fuzzy_match
           then drug_matches ← fuzzy_branch cand_norm i (i + 1) b.1;
                mret (drug_matches, b.2)
           else mret b) st = (Ok b, st)) as Hrest.
  { destruct is_fuzzy_match; [|done]. unfold mbind, M_bind.
    rewrite fuzzy_branch_unfold, Hfz by done. by destruct b. }
  unfold exact_match in Hm.
  by destruct (dict_get drug_variant_to_canonical cand_norm) as [[|m0 ms]|].
Qed.

(** Tokens of which no pair and no single token has an exact match, and for
    which the fuzzy matcher (when enabled) returns the no-match result, give
    the empty list. *)
Lemma unmatched_tokens tokens is_fuzzy_match is_ignore_case is_include_structure s :
  (∀ i cand, bigram_norm tokens i = Some cand →
     exact_match cand = None
     ∧ (is_fuzzy_match = true → get_fuzzy_match cand = Ok None)) →
  (∀ i token, tokens !! i = Some token →
     exact_match (lower token) = None
     ∧ (is_fuzzy_match = true → get_fuzzy_match (lower token) = Ok None)) →
  find_drugs tokens is_fuzzy_match is_ignore_case is_include_structure s
  = if is_include_structure then (load_structures;; mret []) s else (Ok [], s).
Proof.
  intros Hb Hu.
  assert (∀ st, bigram_pass tokens is_fuzzy_match [] ∅ st = (Ok ([], ∅), st)) as H1.
  { intros st. unfold bigram_pass.
    apply (for_enumerate_noop _ (removelast tokens)); [|done].
    intros i x b st' Hx. apply bigram_step_noop; [done|]. apply Hb. }
  assert (∀ st, unigram_pass tokens is_fuzzy_match ∅ [] st = (Ok [], st)) as H2.
  { intros st. unfold unigram_pass. apply (for_enumerate_noop _ tokens); [|done].
    intros i x b st' Hx. destruct (Hu i x Hx). by apply unigram_step_noop. }
  unfold find_drugs. destruct is_include_structure.
  - rewrite !M_bind_run.
    destruct (load_structures s) as [[[]|e] s1]; [|done].
    rewrite M_bind_run, H1, M_bind_run, H2. done.
  - rewrite M_bind_run. simpl. rewrite M_bind_run, H1, M_bind_run, H2. done.
Qed.

Lemma length_zero_empty (t : string) : String.length t = 0 → t = "".
Proof. by destruct t. Qed.

(** On the empty token sequence, and on a sequence of zero-length tokens
    (the strings "" and " " that they give being no variants), [find_drugs]
    returns the empty list, with fuzzy matching or without: nothing is
    raised, but by the loading of the structures when they are asked for. *)
Theorem degenerate_tokens tokens is_fuzzy_match is_ignore_case is_include_structure s :
  Forall (λ t, String.length t = 0) tokens →
  (tokens ≠ [] → exact_match "" = None) →
  (1 < length tokens → exact_match " " = None) →
  find_drugs tokens is_fuzzy_match is_ignore_case is_include_structure s
  = if is_include_structure then (load_structures;; mret []) s else (Ok [], s).
Proof.
  intros Hzero He Hs. rewrite Forall_forall in Hzero.
  apply unmatched_tokens.
  - intros i cand Hc. unfold bigram_norm in Hc.
    destruct (tokens !! i) as [t|] eqn:Ht; [|done]. simpl in Hc.
    destruct (tokens !! (i + 1)) as [n|] eqn:Hn; [|done]. simpl in Hc.
    rewrite (length_zero_empty t), (length_zero_empty n) in Hc
      by (apply Hzero; by eapply list_elem_of_lookup_2).
    injection Hc as <-. simpl. split.
    + apply Hs. apply lookup_lt_Some in Hn. lia.
    + intros _. apply get_fuzzy_match_short. simpl. lia.
  - intros i t Ht.
    rewrite (length_zero_empty t) by (apply Hzero; by eapply list_elem_of_lookup_2).
    simpl. split.
    + apply He. intros ->. done.
    + intros _. apply get_fuzzy_match_short. simpl. lia.
Qed.

(** ** The span of a fuzzy match of a single token *)

Lemma view_app h (l1 l2 : list mention) : view h (l1 ++ l2) = view h l1 ++ view h l2.
Proof. unfold view. by rewrite fmap_app. Qed.

Lemma view_length h (l : list mention) : length (view h l) = length l.
Proof. unfold view. by rewrite length_fmap. Qed.

(** C10: a token that no exact match of a pair covers, that has no exact
    match itself and for which the fuzzy matcher accepts a variant, gets in
    the second loop the mentions of that variant, one per canonical id,
    each with end index i+1; when [i] is the last index, that end index is
    the length of the token sequence, where there is no token.  (The call
    returns when the vocabulary is closed, its variants are distinct and
    every 3-gram of every query is known.) *)
Theorem fuzzy_unigram_span tokens i token variant similarity match_ is_ignore_case s :
  store_wf (heap s) →
  tokens !! i = Some token →
  excluded tokens i = false →
  exact_match (lower token) = None →
  get_fuzzy_match (lower token) = Ok (Some (variant, similarity)) →
  dict_get drug_variant_to_canonical variant = Some match_ →
  (vocabulary_closed → NoDup (drug_variant_to_canonical.*1) → answerable tokens →
   ∃ out s', find_drugs tokens true is_ignore_case false s = (Ok out, s'))
  ∧ ∀ is_include_structure out s',
      find_drugs tokens true is_ignore_case is_include_structure s = (Ok out, s') →
      ∃ out2,
        unigram_part tokens true is_include_structure s out out2
        ∧ filter (λ v : vmention, v.1.2 = i) (view (heap s') out2)
          = (λ m, (final is_include_structure (dbid_to_mol_lookup s')
                     (fuzzy_fields similarity (merged_dict (heap s) m variant)),
                   i, i + 1)) <$> match_
        ∧ (S i = length tokens → tokens !! (i + 1) = None).
Proof.
  intros Hwf Ht Hex Hm Hfz Hget. split.
  { intros Hcl Hkeys Hans. by apply find_drugs_total. }
  intros is_include_structure out s' Hrun.
  destruct (find_drugs_passes _ _ _ _ _ _ _ Hwf Hrun)
    as (sp & vs1 & vs2 & Hp & Hh & Hlk & H1 & H2 & Hout & Hview & Hpre & Hpart).
  eexists. split; [exact Hpart|]. split.
  - rewrite Hout, place_app, view_app, fmap_app in Hview.
    apply app_inj_1 in Hview as [_ Hview];
      [|by rewrite view_length, place_length, length_fmap].
    rewrite Hview, filter_fmap_start, Hlk.
    pose proof (unigram_pass_at _ _ _ _ _ _ H2 Ht) as Hu.
    unfold unigram_views in Hu. rewrite Hex, Hm in Hu.
    apply fuzzy_views_spec in Hu. rewrite Hfz in Hu.
    destruct Hu as (ms & Hms & ->). rewrite Hget in Hms. injection Hms as <-.
    by rewrite <- list_fmap_compose.
  - intros Hlast. apply lookup_ge_None_2. lia.
Qed.

(** ** Repeated calls *)

Lemma parse_line_keeps acc l k :
  is_Some (acc.2 !! k) → is_Some ((parse_line acc l).2 !! k).
Proof.
  destruct acc as [[b c] lk]. simpl.
  destruct (String.prefix "DB" l); simpl; [|done].
  intros H. destruct (decide (strip l = k)) as [->|Hne].
  - rewrite lookup_insert_eq. eauto.
  - by rewrite lookup_insert_ne.
Qed.

Lemma parse_fold_keeps lines acc k :
  is_Some (acc.2 !! k) → is_Some ((foldl parse_line acc lines).2 !! k).
Proof.
  revert acc. induction lines as [|l lines IH]; intros acc H; simpl; [done|].
  apply IH. by apply parse_line_keeps.
Qed.

Lemma load_structures_loaded s sp :
  load_structures s = (Ok (), sp) → size (dbid_to_mol_lookup sp) ≠ 0.
Proof.
  unfold load_structures. case_bool_decide as Hsz; [|by intros [= <-]].
  destruct (if bool_decide _ then _ else _) as [[lines|]|e]; [|done..].
  intros [= <-]. simpl. apply (map_size_ne_0_lookup_2 _ "downloading").
  apply parse_fold_keeps. simpl. rewrite lookup_insert_eq. eauto.
Qed.

Lemma preload_again is_include_structure s sp st :
  preload is_include_structure s = (Ok (), sp) →
  dbid_to_mol_lookup st = dbid_to_mol_lookup sp →
  preload is_include_structure st = (Ok (), st).
Proof.
  destruct is_include_structure; [|done]. simpl. intros Hl Hlk.
  apply load_structures_loaded in Hl. unfold load_structures.
  rewrite Hlk. by rewrite bool_decide_eq_false_2.
Qed.

Lemma store_wf_prefix h0 h : store_wf h0 → h0 `prefix_of` h → store_wf h.
Proof.
  intros Hwf Hpre m l Hl. apply prefix_length in Hpre. specialize (Hwf m l Hl). lia.
Qed.

Lemma find_drugs_views_prefix h0 h lookup tokens is_fuzzy_match is_include_structure :
  store_wf h0 → h0 `prefix_of` h →
  find_drugs_views h lookup tokens is_fuzzy_match is_include_structure
  = find_drugs_views h0 lookup tokens is_fuzzy_match is_include_structure.
Proof.
  intros Hwf Hpre.
  assert (∀ variant start stop ms,
            exact_views h variant start stop ms = exact_views h0 variant start stop ms)
    as Hexact.
  { intros. apply collect_ext. intros j m. by rewrite (merged_prefix h0 h). }
  assert (∀ cand start stop,
            fuzzy_views h cand start stop = fuzzy_views h0 cand start stop) as Hfuzzy.
  { intros. unfold fuzzy_views.
    destruct (get_fuzzy_match cand) as [[[variant similarity]|]|e]; simpl; [|done..].
    destruct (dict_get drug_variant_to_canonical variant); [|done].
    apply collect_ext. intros j m. by rewrite (merged_prefix h0 h). }
  unfold find_drugs_views, scan_views, bigram_pass_views, unigram_pass_views.
  rewrite (collect_ext (bigram_views h tokens is_fuzzy_match)
             (bigram_views h0 tokens is_fuzzy_match)).
  2:{ intros j x. unfold bigram_views. destruct (tokens !! (j + 1)); [|done].
      destruct (exact_match _); [apply Hexact|].
      destruct is_fuzzy_match; [apply Hfuzzy | done]. }
  rewrite (collect_ext (unigram_views h tokens is_fuzzy_match)
             (unigram_views h0 tokens is_fuzzy_match)); [done|].
  intros j x. unfold unigram_views. destruct (excluded tokens j); [done|].
  destruct (exact_match _); [apply Hexact|].
  destruct is_fuzzy_match; [apply Hfuzzy | done].
Qed.

Lemma view_place_app (h : list dict) (vs : list vmention) (rest : list dict) :
  view (h ++ vs.*1.*1 ++ rest) (place (length h) vs) = vs.
Proof.
  revert h. induction vs as [|[[d start] stop] vs IH]; intros h; [done|].
  simpl. unfold view in *. simpl. f_equal.
  - by rewrite list_lookup_middle.
  - specialize (IH (h ++ [d])). rewrite <- app_assoc, length_app in IH. simpl in IH.
    by replace (length h + 1) with (S (length h)) in IH by lia.
Qed.

Lemma load_structures_failed s e sp :
  load_structures s = (Raise e, sp) → load_structures sp = (Ok (), sp).
Proof.
  unfold load_structures at 1. case_bool_decide as Hsz; [|done].
  assert (∀ file, load_structures
                    (State (heap s) (<["downloading" := VBool true]> (dbid_to_mol_lookup s))
                       file)
                  = (Ok (), State (heap s)
                              (<["downloading" := VBool true]> (dbid_to_mol_lookup s)) file))
    as Hskip.
  { intros file. unfold load_structures. simpl. rewrite bool_decide_eq_false_2; [done|].
    apply (map_size_ne_0_lookup_2 _ "downloading"). rewrite lookup_insert_eq. eauto. }
  destruct (if bool_decide _ then _ else _) as [[lines|]|e']; [done| |];
    intros [= _ <-]; apply Hskip.
Qed.

(** C8, amended: when a call of [find_drugs] returns, a second call with
    the same tokens and flags, in the state that the first call left,
    returns a list equal by value to the list that the first call returned,
    and leaves that list as it is.  When the first call raises, and not while
    it loads the structures (they are not asked for, or their loading
    succeeds or is skipped), the second call raises the same exception.  When
    the first call raises while it loads the structures, it raises the error
    of the loading, and the second call does not load again. *)
Theorem find_drugs_repeatable tokens is_fuzzy_match is_ignore_case is_include_structure
    s r1 s1 r2 s2 :
  store_wf (heap s) →
  find_drugs tokens is_fuzzy_match is_ignore_case is_include_structure s = (r1, s1) →
  find_drugs tokens is_fuzzy_match is_ignore_case is_include_structure s1 = (r2, s2) →
  (∀ out1, r1 = Ok out1 →
     ∃ out2, r2 = Ok out2
             ∧ view (heap s2) out2 = view (heap s1) out1
             ∧ view (heap s2) out1 = view (heap s1) out1)
  ∧ ((is_include_structure = true → ∃ sp, load_structures s = (Ok (), sp)) →
     ∀ e, r1 = Raise e → r2 = Raise e)
  ∧ (is_include_structure = true →
     ∀ e sp, load_structures s = (Raise e, sp) →
       r1 = Raise e ∧ s1 = sp ∧ load_structures s1 = (Ok (), s1)).
Proof.
  intros Hwf Hrun1 Hrun2.
  pose proof (find_drugs_run tokens is_fuzzy_match is_ignore_case is_include_structure
                s Hwf) as H1.
  pose proof (preload_heap is_include_structure s) as Hheap.
  rewrite Hrun1 in H1. split_and!.
  - intros out1 ->.
    destruct (preload is_include_structure s) as [[[]|e] sp] eqn:Hp; [|done].
    simpl in Hheap. destruct H1 as (vs & Hvs & -> & ->).
    assert (heap s `prefix_of` heap (push sp (vs.*1.*1))) as Hpre.
    { unfold push. simpl. rewrite Hheap. by apply prefix_app_r. }
    pose proof (find_drugs_run tokens is_fuzzy_match is_ignore_case is_include_structure
                  _ (store_wf_prefix _ _ Hwf Hpre)) as H2.
    rewrite (preload_again _ _ _ _ Hp), Hrun2 in H2 by done.
    rewrite (find_drugs_views_prefix (heap s)) in H2 by done. simpl in H2.
    rewrite Hvs in H2. destruct r2 as [out2|e]; [|by destruct H2].
    destruct H2 as (vs' & [= <-] & -> & ->). exists (place (length (heap sp ++ vs.*1.*1)) vs).
    split; [done|]. unfold push. simpl. rewrite view_place.
    rewrite <- Hheap, <- app_assoc, view_place_app, view_place. done.
  - intros Hload e ->.
    assert (∃ sp, preload is_include_structure s = (Ok (), sp)) as [sp Hp].
    { destruct is_include_structure; [by apply Hload | by exists s]. }
    rewrite Hp in H1, Hheap. simpl in Hheap. destruct H1 as [Hv (Hpre & Hlk & _)].
    rewrite Hheap in Hpre.
    pose proof (find_drugs_run tokens is_fuzzy_match is_ignore_case is_include_structure
                  _ (store_wf_prefix _ _ Hwf Hpre)) as H2.
    rewrite (preload_again _ _ _ _ Hp), Hrun2 in H2 by done.
    rewrite (find_drugs_views_prefix (heap s)), Hlk, Hv in H2 by done.
    destruct r2 as [out2|e']; [by destruct H2 as (vs & ? & _)|].
    destruct H2 as [[= ->] _]. done.
  - intros -> e sp Hl. simpl in H1. rewrite Hl in H1. injection H1 as <- <-.
    split_and!; [done..|]. by apply (load_structures_failed s e).
Qed.

(** ** The records of the mentions *)

Lemma merged_is_copy h m variant d :
  store_wf h → merged h m variant = Ok d → is_merged_copy h m variant d.
Proof.
  intros Hwf. unfold merged.
  destruct (drug_canonical_to_data !! m) as [l|] eqn:Hl; [|done].
  destruct (lookup_lt_is_Some_2 h l (Hwf _ _ Hl)) as [record Hrec].
  rewrite Hrec. simpl. intros [= <-].
  exists l, record. split_and!; [done..|].
  intros k _. rewrite lookup_union.
  destruct (default ∅ (drug_variant_to_variant_data !! variant) !! k);
    destruct (record !! k); done.
Qed.

Lemma is_merged_copy_insert h m variant d k x :
  k ∈ added_fields →
  is_merged_copy h m variant d → is_merged_copy h m variant (<[k := x]> d).
Proof.
  intros Hk (l & record & Hl & Hrec & Hd).
  exists l, record. split_and!; [done..|].
  intros k' Hk'. rewrite lookup_insert_ne; [by apply Hd|]. by intros ->.
Qed.

Lemma fuzzy_fields_is_copy h m variant similarity d :
  is_merged_copy h m variant d → is_merged_copy h m variant (fuzzy_fields similarity d).
Proof.
  intros H. unfold fuzzy_fields.
  apply is_merged_copy_insert; [set_solver|].
  apply is_merged_copy_insert; [set_solver|]. done.
Qed.

Lemma structured_is_copy h m variant lookup d :
  is_merged_copy h m variant d → is_merged_copy h m variant (structured lookup d).
Proof.
  intros H. unfold structured, with_structure.
  destruct (d !! "drugbank_id") as [[| |k| |]|]; try done.
  destruct (lookup !! k) as [[| | | |]|]; try done;
    (apply is_merged_copy_insert; [set_solver | done]).
Qed.

Lemma collect_singletons_run (g : dict → dict) h variant start stop i0 ms vs :
  store_wf h →
  (∀ m d, is_merged_copy h m variant d → is_merged_copy h m variant (g d)) →
  collect (λ _ m, d ← merged h m variant; Ok [(g d, start, stop)]) i0 ms = Ok vs →
  run_of h variant start stop vs ms.
Proof.
  intros Hwf Hg. revert i0 vs. induction ms as [|m ms IH]; intros i0 vs; simpl.
  - intros [= <-]. constructor.
  - destruct (merged h m variant) as [d|e] eqn:Hd; simpl; [|done].
    destruct (collect _ (S i0) ms) as [rest|e] eqn:Hrest; simpl; [|done].
    intros [= <-]. constructor.
    + simpl. split_and!; [done..|]. apply Hg. by apply merged_is_copy.
    + by apply (IH _ _ Hrest).
Qed.

Lemma fuzzy_views_run h cand_norm start stop vs :
  store_wf h → fuzzy_views h cand_norm start stop = Ok vs →
  vs = []
  ∨ ∃ variant similarity match_,
      get_fuzzy_match cand_norm = Ok (Some (variant, similarity))
      ∧ dict_get drug_variant_to_canonical variant = Some match_
      ∧ run_of h variant start stop vs match_.
Proof.
  intros Hwf. unfold fuzzy_views.
  destruct (get_fuzzy_match cand_norm) as [[[variant similarity]|]|e]; simpl;
    [|by intros [= <-]; left|done].
  destruct (dict_get drug_variant_to_canonical variant) as [ms|] eqn:Hms; [|done].
  intros Hv. right. exists variant, similarity, ms. split_and!; [done..|].
  eapply (collect_singletons_run (fuzzy_fields similarity)); [done | | exact Hv].
  intros m d. apply fuzzy_fields_is_copy.
Qed.

(** What a pair, or a token, adds to the list is nothing, or the run of
    the variant on which it rests. *)
Lemma bigram_views_run h tokens is_fuzzy_match j x vsj :
  store_wf h → tokens !! j = Some x →
  bigram_views h tokens is_fuzzy_match j x = Ok vsj →
  vsj = []
  ∨ ∃ variant match_ stop,
      matched_variant tokens is_fuzzy_match j stop variant
      ∧ dict_get drug_variant_to_canonical variant = Some match_
      ∧ run_of h variant j stop vsj match_.
Proof.
  intros Hwf Hx. unfold bigram_views.
  destruct (tokens !! (j + 1)) as [next|] eqn:Hn; [|done].
  assert (bigram_norm tokens j = Some (lower (String.append (String.append x " ") next)))
    as Hq.
  { unfold bigram_norm. rewrite Hx. simpl. by rewrite Hn. }
  destruct (exact_match _) as [ms|] eqn:Hm.
  - intros Hv. right. exists (lower (String.append (String.append x " ") next)), ms, (j + 1).
    split_and!.
    + by eapply exact_pair.
    + by apply exact_match_Some in Hm as [? _].
    + by eapply (collect_singletons_run id).
  - destruct is_fuzzy_match; [|by intros [= <-]; left].
    intros Hv. destruct (fuzzy_views_run _ _ _ _ _ Hwf Hv)
      as [->|(variant & similarity & ms & Hfz & Hms & Hrun)]; [by left|].
    right. exists variant, ms, (j + 1). split_and!; [|done..].
    by eapply fuzzy_pair.
Qed.

Lemma unigram_views_run h tokens is_fuzzy_match j x vsj :
  store_wf h → tokens !! j = Some x →
  unigram_views h tokens is_fuzzy_match j x = Ok vsj →
  vsj = []
  ∨ ∃ variant match_ stop,
      matched_variant tokens is_fuzzy_match j stop variant
      ∧ dict_get drug_variant_to_canonical variant = Some match_
      ∧ run_of h variant j stop vsj match_.
Proof.
  intros Hwf Hx. unfold unigram_views.
  destruct (excluded tokens j) eqn:Hex; [by intros [= <-]; left|].
  destruct (exact_match _) as [ms|] eqn:Hm.
  - intros Hv. right. exists (lower x), ms, j. split_and!.
    + by eapply exact_token.
    + by apply exact_match_Some in Hm as [? _].
    + by eapply (collect_singletons_run id).
  - destruct is_fuzzy_match; [|by intros [= <-]; left].
    intros Hv. destruct (fuzzy_views_run _ _ _ _ _ Hwf Hv)
      as [->|(variant & similarity & ms & Hfz & Hms & Hrun)]; [by left|].
    right. exists variant, ms, (j + 1). split_and!; [|done..].
    by eapply fuzzy_token.
Qed.

(** A position of a gathered list lies in what one index gave. *)
Lemma collect_run {A} (p : nat → A → res (list vmention)) i0 l vs k :
  collect p i0 l = Ok vs → k < length vs →
  ∃ j x vsj before after,
    l !! j = Some x ∧ p (i0 + j) x = Ok vsj
    ∧ vs = before ++ vsj ++ after
    ∧ length before ≤ k < length before + length vsj.
Proof.
  revert i0 vs k. induction l as [|x l IH]; intros i0 vs k; simpl.
  - intros [= <-]. simpl. lia.
  - destruct (p i0 x) as [vs0|e] eqn:H0; simpl; [|done].
    destruct (collect p (S i0) l) as [rest|e] eqn:Hrest; simpl; [|done].
    intros [= <-] Hk. destruct (decide (k < length vs0)) as [Hlt|Hge].
    + exists 0, x, vs0, [], rest. rewrite Nat.add_0_r. simpl.
      split_and!; [done | done | done | lia | lia].
    + rewrite length_app in Hk.
      destruct (IH (S i0) rest (k - length vs0) Hrest)
        as (j & y & vsj & before & after & Hy & Hj & -> & Hr); [lia|].
      exists (S j), y, vsj, (vs0 ++ before), after.
      replace (i0 + S j) with (S i0 + j) by lia. rewrite length_app, <- app_assoc.
      split_and!; [done | done | done | lia | lia].
Qed.

Lemma pass_in_run h tokens is_fuzzy_match (p : nat → string → res (list vmention)) l vs k :
  (∀ j x vsj, l !! j = Some x → p j x = Ok vsj →
     vsj = []
     ∨ ∃ variant match_ stop,
         matched_variant tokens is_fuzzy_match j stop variant
         ∧ dict_get drug_variant_to_canonical variant = Some match_
         ∧ run_of h variant j stop vsj match_) →
  collect p 0 l = Ok vs → k < length vs →
  in_run h tokens is_fuzzy_match vs k.
Proof.
  intros Hp Hvs Hk.
  destruct (collect_run _ _ _ _ _ Hvs Hk)
    as (j & x & vsj & before & after & Hx & Hj & -> & Hr).
  destruct (Hp j x vsj Hx Hj) as [->|(variant & match_ & stop & Hm & Hget & Hrun)].
  - simpl in Hr. lia.
  - by exists variant, match_, j, stop, before, vsj, after.
Qed.

Lemma in_run_app_l h tokens is_fuzzy_match vs1 vs2 k :
  in_run h tokens is_fuzzy_match vs1 k → in_run h tokens is_fuzzy_match (vs1 ++ vs2) k.
Proof.
  intros (variant & match_ & start & stop & before & run & after & Hm & Hget & -> & Hk & Hr).
  exists variant, match_, start, stop, before, run, (after ++ vs2).
  by rewrite <- !app_assoc.
Qed.

Lemma in_run_app_r h tokens is_fuzzy_match vs1 vs2 k :
  in_run h tokens is_fuzzy_match vs2 k →
  in_run h tokens is_fuzzy_match (vs1 ++ vs2) (length vs1 + k).
Proof.
  intros (variant & match_ & start & stop & before & run & after & Hm & Hget & -> & Hk & Hr).
  exists variant, match_, start, stop, (vs1 ++ before), run, after.
  rewrite length_app, <- !app_assoc. split_and!; [done | done | done | lia | lia | done].
Qed.

Lemma in_run_structured h tokens is_fuzzy_match lookup vs k :
  in_run h tokens is_fuzzy_match vs k →
  in_run h tokens is_fuzzy_match
    ((λ v : vmention, (structured lookup v.1.1, v.1.2, v.2)) <$> vs) k.
Proof.
  intros (variant & match_ & start & stop & before & run & after & Hm & Hget & -> & Hk & Hr).
  set (f := λ v : vmention, (structured lookup v.1.1, v.1.2, v.2)).
  exists variant, match_, start, stop, (f <$> before), (f <$> run), (f <$> after).
  rewrite !fmap_app, !length_fmap. split_and!; [done | done | done | lia | lia |].
  apply Forall2_fmap_l. eapply Forall2_impl; [exact Hr|]. simpl.
  intros v m (? & ? & Hc). split_and!; [done..|]. by apply structured_is_copy.
Qed.

Lemma find_drugs_views_in_run h lookup tokens is_fuzzy_match is_include_structure vs k :
  store_wf h →
  find_drugs_views h lookup tokens is_fuzzy_match is_include_structure = Ok vs →
  k < length vs →
  in_run h tokens is_fuzzy_match vs k.
Proof.
  intros Hwf. unfold find_drugs_views, scan_views.
  destruct (bigram_pass_views h tokens is_fuzzy_match) as [vs1|e] eqn:H1; [|done].
  destruct (unigram_pass_views h tokens is_fuzzy_match) as [vs2|e] eqn:H2; [|done].
  simpl.
  assert (∀ k, k < length (vs1 ++ vs2) → in_run h tokens is_fuzzy_match (vs1 ++ vs2) k)
    as Hscan.
  { intros k' Hk'. rewrite length_app in Hk'.
    destruct (decide (k' < length vs1)) as [Hlt|Hge].
    - apply in_run_app_l. eapply pass_in_run; [|exact H1|exact Hlt].
      intros j x vsj Hx. apply removelast_lookup in Hx as [Hx _].
      by apply bigram_views_run.
    - replace k' with (length vs1 + (k' - length vs1)) by lia.
      apply in_run_app_r. eapply pass_in_run; [|exact H2|lia].
      intros j x vsj Hx. by apply unigram_views_run. }
  destruct is_include_structure.
  - intros Hs. rewrite (structure_views_spec _ _ _ Hs), length_fmap. intros Hk.
    by apply in_run_structured, Hscan.
  - intros [= <-]. apply Hscan.
Qed.

Lemma place_heap (h : list dict) (vs : list vmention) (rest : list dict) :
  Forall2 (λ (mention : mention) (v : vmention),
             mention.1.2 = v.1.2 ∧ mention.2 = v.2
             ∧ (h ++ vs.*1.*1 ++ rest) !! mention.1.1 = Some v.1.1)
    (place (length h) vs) vs.
Proof.
  revert h. induction vs as [|v vs IH]; intros h; simpl; constructor.
  - simpl. split_and!; [done..|]. by rewrite list_lookup_middle.
  - specialize (IH (h ++ [v.1.1])). rewrite length_app, <- app_assoc in IH. simpl in IH.
    by replace (length h + 1) with (S (length h)) in IH by lia.
Qed.

(** C9: [find_drugs] leaves every dictionary that existed before the call
    as it was, the stored canonical records among them, whether it returns
    or raises.  The record of every mention that it returns is a new
    dictionary, distinct from that of every other mention and from every
    stored record.  And every returned mention rests on a variant, the one
    that matched the pair or the token at its start, exactly or through
    [get_fuzzy_match]: the mention lies in a run of the returned list that
    goes with the canonical ids of that variant one by one and in their
    order, and the record of each mention of the run has the fields of the
    record of its canonical id overlaid by the override fields of that
    variant, the added fields apart. *)
Theorem match_data_fresh_copy tokens is_fuzzy_match is_ignore_case is_include_structure
    s r s' :
  store_wf (heap s) →
  find_drugs tokens is_fuzzy_match is_ignore_case is_include_structure s = (r, s') →
  (∀ l, l < length (heap s) → heap s' !! l = heap s !! l)
  ∧ (∀ m l, drug_canonical_to_data !! m = Some l → heap s' !! l = heap s !! l)
  ∧ (∀ out, r = Ok out →
       NoDup (out.*1.*1)
       ∧ ∀ mention : mention, mention ∈ out →
           length (heap s) ≤ mention.1.1
           ∧ (∀ m l, drug_canonical_to_data !! m = Some l → mention.1.1 ≠ l)
           ∧ ∃ variant match_ before run after,
               matched_variant tokens is_fuzzy_match mention.1.2 mention.2 variant
               ∧ dict_get drug_variant_to_canonical variant = Some match_
               ∧ out = before ++ run ++ after
               ∧ mention ∈ run
               ∧ Forall2 (λ (mention' : loc * nat * nat) m,
                            mention'.1.2 = mention.1.2 ∧ mention'.2 = mention.2
                            ∧ ∃ d, heap s' !! mention'.1.1 = Some d
                                   ∧ is_merged_copy (heap s) m variant d)
                   run match_).
Proof.
  intros Hwf Hrun.
  pose proof (find_drugs_run tokens is_fuzzy_match is_ignore_case is_include_structure
                s Hwf) as H.
  pose proof (preload_heap is_include_structure s) as Hheap.
  rewrite Hrun in H.
  assert (heap s `prefix_of` heap s') as Hpre.
  { destruct (preload is_include_structure s) as [[[]|e] sp]; simpl in Hheap.
    - destruct r as [out|e].
      + destruct H as (vs & _ & _ & ->). unfold push. simpl. rewrite Hheap.
        by apply prefix_app_r.
      + destruct H as [_ (Hp & _)]. by rewrite Hheap in Hp.
    - injection H as _ <-. by rewrite Hheap. }
  assert (∀ l, l < length (heap s) → heap s' !! l = heap s !! l) as Hold.
  { intros l Hl. symmetry. by apply prefix_lookup_lt. }
  split_and!; [done | by intros m l Hl; apply Hold, (Hwf m) |].
  intros out ->.
  destruct (preload is_include_structure s) as [[[]|e] sp]; [|done].
  simpl in Hheap. destruct H as (vs & Hvs & -> & ->).
  split; [apply place_NoDup|]. intros mention Hin.
  pose proof (place_ge (length (heap s)) vs) as Hge. rewrite Forall_forall in Hge.
  specialize (Hge _ Hin). simpl in Hge. split_and!; [done| |].
  - intros m l Hl Heq. specialize (Hwf m _ Hl). lia.
  - apply list_elem_of_lookup in Hin as [p Hp].
    assert (p < length vs) as Hlt.
    { apply lookup_lt_Some in Hp. by rewrite place_length in Hp. }
    destruct (find_drugs_views_in_run _ _ _ _ _ _ _ Hwf Hvs Hlt)
      as (variant & match_ & start & stop & before & run & after
          & Hm & Hget & -> & Hk & Hr).
    rewrite !place_app in Hp |- *.
    pose proof (place_heap (heap s ++ before.*1.*1) run (after.*1.*1)) as Hplace.
    rewrite length_app, !length_fmap in Hplace.
    set (placed := place (length (heap s) + length before) run) in *.
    assert (Forall2 (λ (mention' : loc * nat * nat) m,
                       mention'.1.2 = start ∧ mention'.2 = stop
                       ∧ ∃ d, heap (push sp ((before ++ run ++ after).*1.*1))
                                !! mention'.1.1 = Some d
                              ∧ is_merged_copy (heap s) m variant d) placed match_)
      as Hplaced.
    { eapply Forall2_trans; [|exact Hplace|exact Hr]. simpl.
      intros mention' v m (Hs & He & Hl) (Hs' & He' & Hc).
      split_and!; [congruence | congruence |]. exists v.1.1. split; [|done].
      unfold push. simpl. rewrite Hheap, !fmap_app. by rewrite <- app_assoc in Hl. }
    assert (mention ∈ placed) as Hmem.
    { rewrite lookup_app_r in Hp by (rewrite place_length; lia).
      rewrite place_length in Hp. rewrite lookup_app_l in Hp.
      - by apply list_elem_of_lookup_2 in Hp.
      - unfold placed. rewrite place_length. lia. }
    assert (mention.1.2 = start ∧ mention.2 = stop) as [Hs He].
    { assert (Forall (λ mention' : loc * nat * nat,
                        mention'.1.2 = start ∧ mention'.2 = stop) placed) as Hall.
      { eapply Forall2_Forall_l; [exact Hplaced|]. apply Forall_forall.
        intros m _ mention' (? & ? & _). done. }
      rewrite Forall_forall in Hall. by apply Hall. }
    rewrite Hs, He.
    by exists variant, match_, (place (length (heap s)) before), placed,
      (place (length (heap s) + length before + length run) after).
Qed.

End Finder.


(** * Concrete vocabularies and runs *)

Lemma elements_order (s : gset string) : elements s ≡ₚ elements s.
Proof. reflexivity. Defined.

Lemma voc_two_NoDup : NoDup (voc_two.*1).
Proof. apply (bool_decide_unpack (NoDup (voc_two.*1))). vm_compute. exact I. Defined.

(** C1: [get_fuzzy_match] raises KeyError (line 82) on a query with a 3-gram
    that occurs in no variant, and on every query of three characters or
    more when the vocabulary is empty, where the specification asks for the
    no-match result. *)
Theorem get_fuzzy_match_raises :
  get_fuzzy_match elements [("aspirin", ["DB00945"])] "xyz" = Raise (KeyError "xyz")
  ∧ get_fuzzy_match elements [] "abc" = Raise (KeyError "abc").
Proof. split; vm_compute; reflexivity. Qed.

(** C2: for the query "aspir" and the candidate "aspirin", 3 of the
    candidate's 3-grams match and the union of the two 3-gram sets has 5
    elements, but the similarity computed is 3/12: the denominator is the
    size of the union of the candidate's 3-grams with those of the last
    variant of the vocabulary, "ibuprofen". *)
Theorem jaccard_not_over_query_union :
  candidate_to_jaccard elements voc_two "aspir" = Ok [("aspirin", (3 # 12)%Q)]
  ∧ size (get_ngrams "aspir" ∩ get_ngrams "aspirin") = 3
  ∧ size (get_ngrams "aspir" ∪ get_ngrams "aspirin") = 5
  ∧ size (get_ngrams "ibuprofen" ∪ get_ngrams "aspirin") = 12
  ∧ ¬ (3 # 12 == 3 # 5)%Q.
Proof. split_and!; try (vm_compute; reflexivity). intros H. vm_compute in H. discriminate. Qed.

Lemma fuzzy_match_gate_witness :
  (get_fuzzy_match elements voc_two "aspir" = Ok (Some ("aspirin", (3 # 12)%Q))
   ∧ (0 < 3 # 12)%Q ∧ (3 # 12 <= 1)%Q)
  ∧ (candidate_to_jaccard elements voc_two "ibup" = Ok [("ibuprofen", (2 # 7)%Q)]
     ∧ 3 < size (get_ngrams "ibup" ∖ get_ngrams "ibuprofen")
             `max` size (get_ngrams "ibuprofen" ∖ get_ngrams "ibup")
     ∧ get_fuzzy_match elements voc_two "ibup" = Ok None).
Proof.
  split.
  - assert (get_fuzzy_match elements voc_two "aspir" = Ok (Some ("aspirin", (3 # 12)%Q)))
      as H by (vm_compute; reflexivity).
    split; [exact H|].
    exact (proj1 (fuzzy_match_gate elements elements_order voc_two "aspir" voc_two_NoDup)
             "aspirin" (3 # 12)%Q H).
  - assert (candidate_to_jaccard elements voc_two "ibup" = Ok [("ibuprofen", (2 # 7)%Q)])
      as H by (vm_compute; reflexivity).
    assert (3 < size (get_ngrams "ibup" ∖ get_ngrams "ibuprofen")
                  `max` size (get_ngrams "ibuprofen" ∖ get_ngrams "ibup"))
      as Hgate by (vm_compute; lia).
    split_and!; [exact H | exact Hgate |].
    exact (proj2 (proj2 (fuzzy_match_gate elements elements_order voc_two "ibup" voc_two_NoDup)
                   _ "ibuprofen" (2 # 7)%Q H eq_refl) Hgate).
Defined.

Abbreviation run_ex tokens is_fuzzy_match is_include_structure s :=
  (find_drugs elements voc_pairs no_download records_ex overrides_ex
     tokens is_fuzzy_match None is_include_structure s).

Lemma state_ex_wf : store_wf records_ex (heap state_ex).
Proof. apply store_wf_decide. vm_compute. reflexivity. Defined.

Lemma voc_pairs_closed : vocabulary_closed voc_pairs records_ex.
Proof. apply vocabulary_closed_decide. vm_compute. reflexivity. Defined.

Lemma exact_bigram_mentions_witness :
  let tokens := ["Take"; "Acetyl"; "Salicylate"; "now"] in
  let out := [(4, 1, 2); (5, 1, 2)] in
  let s' := (run_ex tokens false true state_ex).2 in
  (∃ out0 s0, run_ex tokens false false state_ex = (Ok out0, s0))
  ∧ run_ex tokens false true state_ex = (Ok out, s')
  ∧ filter (λ v : gmap string value * nat * nat, v.1.2 = 1) (view (heap s') out)
    = (λ m, (final true (dbid_to_mol_lookup s')
               (merged_dict records_ex overrides_ex (heap state_ex) m "acetyl salicylate"),
             1, 1 + 1)) <$> ["DB00945"; "CHEMBL25"]
  ∧ ∃ out2,
      unigram_part elements voc_pairs no_download records_ex overrides_ex
        tokens false true state_ex out out2
      ∧ Forall (λ m : nat * nat * nat, m.1.2 ≠ 1 ∧ m.1.2 ≠ 1 + 1) out2.
Proof.
  intros tokens out s'.
  assert (run_ex tokens false true state_ex = (Ok out, s')) as Hrun
    by (vm_compute; reflexivity).
  assert (dict_get voc_pairs (lower (String.append (String.append "Acetyl" " ") "Salicylate"))
          = Some ["DB00945"; "CHEMBL25"]) as Hget by (vm_compute; reflexivity).
  destruct (exact_bigram_mentions elements elements_order voc_pairs no_download
              records_ex overrides_ex tokens 1 "Acetyl" "Salicylate"
              ["DB00945"; "CHEMBL25"] None state_ex
              state_ex_wf eq_refl eq_refl Hget ltac:(discriminate))
    as [Htotal Hspec].
  split; [exact (Htotal voc_pairs_closed)|].
  split; [exact Hrun|]. exact (Hspec false true out s' Hrun).
Defined.

(** C5, as stated, fails: "acetyl salicylate" and "salicylate sodium" are
    both variants, so that the pairs (0, 1) and (1, 2) both match exactly
    and the token index 1 lies in the spans of mentions at two different
    positions. *)
Lemma overlapping_pair_mentions :
  (run_ex ["Acetyl"; "Salicylate"; "Sodium"] false false state_ex).1
  = Ok [(4, 0, 1); (5, 0, 1); (6, 1, 2)]
  ∧ ∃ m1 m2 : nat * nat * nat,
      m1 ∈ [(4, 0, 1); (5, 0, 1); (6, 1, 2)]
      ∧ m2 ∈ [(4, 0, 1); (5, 0, 1); (6, 1, 2)]
      ∧ (m1.1.2, m1.2) ≠ (m2.1.2, m2.2)
      ∧ (m1.1.2 ≤ 1 ∧ 1 ≤ m1.2) ∧ (m2.1.2 ≤ 1 ∧ 1 ≤ m2.2).
Proof.
  split; [vm_compute; reflexivity|].
  exists (4, 0, 1), (6, 1, 2). split_and!; simpl; try lia; try discriminate; set_solver.
Qed.

Lemma mention_overlaps_witness :
  let tokens := ["Acetyl"; "Salicylate"; "Sodium"] in
  let out := [(4, 0, 1); (5, 0, 1); (6, 1, 2)] in
  run_ex tokens false false state_ex = (Ok out, (run_ex tokens false false state_ex).2)
  ∧ (∀ m : nat * nat * nat, m ∈ out → m.2 = m.1.2 → excluded voc_pairs tokens m.1.2 = false)
  ∧ (∀ (m1 m2 : nat * nat * nat) t,
       m1 ∈ out → m2 ∈ out →
       (m1.1.2 ≤ t ∧ t ≤ m1.2) → (m2.1.2 ≤ t ∧ t ≤ m2.2) →
       (m1.1.2 = m2.1.2 ∧ m1.2 = m2.2)
       ∨ (m1.2 = m1.1.2 + 1 ∧ m2.2 = m2.1.2 + 1
          ∧ exact_bigram voc_pairs tokens m1.1.2 = true
          ∧ exact_bigram voc_pairs tokens m2.1.2 = true
          ∧ (m1.1.2 = m2.1.2 + 1 ∨ m2.1.2 = m1.1.2 + 1))).
Proof.
  intros tokens out.
  assert (run_ex tokens false false state_ex
          = (Ok out, (run_ex tokens false false state_ex).2)) as Hrun
    by (vm_compute; reflexivity).
  destruct (mention_overlaps elements elements_order voc_pairs no_download
              records_ex overrides_ex tokens false None false state_ex out
              (run_ex tokens false false state_ex).2 state_ex_wf Hrun)
    as [Hsingle Hshare].
  split; [exact Hrun|]. split; [exact Hsingle | exact (Hshare eq_refl)].
Defined.

(** With fuzzy matching, a fuzzy match of a pair excludes nothing: the
    single token at index 0 is reported inside the span of the pair. *)
Lemma fuzzy_pair_excludes_nothing :
  (find_drugs elements [("aspirin", ["DB00945"]); ("aspirin forte", ["DB09116"])]
     no_download records_ex overrides_ex ["Aspirin"; "fort"] true None false state_ex).1
  = Ok [(4, 0, 1); (5, 0, 0)].
Proof. vm_compute. reflexivity. Qed.

(** C6, as stated, fails: the token "Acetyl" is a variant (lower-cased), but
    it lies in the exact match of the pair "acetyl salicylate" and gets no
    mention that spans its index alone. *)
Lemma covered_token_has_no_unigram_mention :
  dict_get voc_pairs (lower "Acetyl") = Some ["DB09116"]
  ∧ (run_ex ["Acetyl"; "Salicylate"] false false state_ex).1 = Ok [(4, 0, 1); (5, 0, 1)]
  ∧ ¬ ∃ m : nat * nat * nat, m ∈ [(4, 0, 1); (5, 0, 1)] ∧ m.1.2 = 0 ∧ m.2 = 0.
Proof.
  split_and!; [vm_compute; reflexivity.. |].
  intros ([[l start] stop] & Hin & Hs & He). simpl in *. subst.
  set_solver.
Qed.

Lemma exact_unigram_mentions_witness :
  let tokens := ["Take"; "Acetyl"; "daily"] in
  let out := [(4, 1, 1)] in
  let s' := (run_ex tokens false false state_ex).2 in
  (∃ out0 s0, run_ex tokens false false state_ex = (Ok out0, s0))
  ∧ run_ex tokens false false state_ex = (Ok out, s')
  ∧ filter (λ v : gmap string value * nat * nat, v.1.2 = 1) (view (heap s') out)
    = (λ m, (final false (dbid_to_mol_lookup s')
               (merged_dict records_ex overrides_ex (heap state_ex) m (lower "Acetyl")),
             1, 1)) <$> ["DB09116"].
Proof.
  intros tokens out s'.
  assert (run_ex tokens false false state_ex = (Ok out, s')) as Hrun
    by (vm_compute; reflexivity).
  assert (dict_get voc_pairs (lower "Acetyl") = Some ["DB09116"]) as Hget
    by (vm_compute; reflexivity).
  assert (excluded voc_pairs tokens 1 = false) as Hex by (vm_compute; reflexivity).
  destruct (exact_unigram_mentions elements elements_order voc_pairs no_download
              records_ex overrides_ex tokens 1 "Acetyl" ["DB09116"] None state_ex
              state_ex_wf voc_pairs_closed eq_refl Hget Hex)
    as [Htotal Hspec].
  split; [exact Htotal|]. split; [exact Hrun|]. exact (Hspec false out s' Hrun).
Defined.

(** C7: a zero-length token next to a token of two characters or more gives
    a query of three characters or more, and with fuzzy matching
    [find_drugs] raises the KeyError of line 82 on it. *)
Theorem zero_length_token_raises :
  run_ex [""; "xyz"] true false state_ex = (Raise (KeyError "xyz"), state_ex)
  ∧ exact_match voc_pairs " xyz" = None
  ∧ exact_match voc_pairs "" = None
  ∧ exact_match voc_pairs "xyz" = None.
Proof. split_and!; vm_compute; reflexivity. Qed.

Lemma degenerate_tokens_witness :
  run_ex [""; ""; ""] true false state_ex = (Ok [], state_ex)
  ∧ run_ex [] true false state_ex = (Ok [], state_ex).
Proof.
  split.
  - apply (degenerate_tokens elements elements_order voc_pairs no_download
             records_ex overrides_ex [""; ""; ""] true None false state_ex).
    + repeat constructor.
    + intros _. vm_compute. reflexivity.
    + intros _. vm_compute. reflexivity.
  - apply (degenerate_tokens elements elements_order voc_pairs no_download
             records_ex overrides_ex [] true None false state_ex).
    + constructor.
    + intros H. by destruct H.
    + simpl. lia.
Defined.

Lemma answerable_ex : answerable voc_pairs ["aspiri"].
Proof.
  intros q g [[i Hq]|(i & token & Ht & ->)] Hg.
  - destruct i as [|i]; discriminate.
  - destruct i as [|i]; [|by destruct i]. injection Ht as <-.
    exists "aspirin". split; [set_solver|].
    assert (get_ngrams (lower "aspiri") ⊆ get_ngrams "aspirin") as Hsub.
    { apply (bool_decide_unpack _). vm_compute. exact I. }
    by apply Hsub.
Defined.

Lemma voc_pairs_NoDup : NoDup (voc_pairs.*1).
Proof. apply (bool_decide_unpack (NoDup (voc_pairs.*1))). vm_compute. exact I. Defined.

Lemma fuzzy_unigram_span_witness :
  let tokens := ["aspiri"] in
  let out := [(4, 0, 1)] in
  let s' := (run_ex tokens true true state_ex).2 in
  (∃ out0 s0, run_ex tokens true false state_ex = (Ok out0, s0))
  ∧ run_ex tokens true true state_ex = (Ok out, s')
  ∧ ∃ out2,
      unigram_part elements voc_pairs no_download records_ex overrides_ex
        tokens true true state_ex out out2
      ∧ filter (λ v : gmap string value * nat * nat, v.1.2 = 0) (view (heap s') out2)
        = (λ m, (final true (dbid_to_mol_lookup s')
                   (fuzzy_fields (4 # 5)
                      (merged_dict records_ex overrides_ex (heap state_ex) m "aspirin")),
                 0, 0 + 1)) <$> ["DB00945"]
      ∧ (1 = length tokens → tokens !! (0 + 1) = None).
Proof.
  intros tokens out s'.
  assert (run_ex tokens true true state_ex = (Ok out, s')) as Hrun
    by (vm_compute; reflexivity).
  assert (excluded voc_pairs tokens 0 = false) as Hex by (vm_compute; reflexivity).
  assert (exact_match voc_pairs (lower "aspiri") = None) as Hm
    by (vm_compute; reflexivity).
  assert (get_fuzzy_match elements voc_pairs (lower "aspiri")
          = Ok (Some ("aspirin", (4 # 5)%Q))) as Hfz by (vm_compute; reflexivity).
  assert (dict_get voc_pairs "aspirin" = Some ["DB00945"]) as Hget
    by (vm_compute; reflexivity).
  destruct (fuzzy_unigram_span elements elements_order voc_pairs no_download
              records_ex overrides_ex tokens 0 "aspiri" "aspirin" (4 # 5)%Q ["DB00945"]
              None state_ex state_ex_wf eq_refl Hex Hm Hfz Hget)
    as [Htotal Hspec].
  split; [exact (Htotal voc_pairs_closed voc_pairs_NoDup answerable_ex)|].
  split; [exact Hrun|]. exact (Hspec true out s' Hrun).
Defined.

Lemma find_drugs_repeatable_witness :
  let tokens := ["Take"; "Aspirin"; "and"; "Acetyl"; "Salicylate"] in
  let out1 := [(4, 3, 4); (5, 3, 4); (6, 1, 1)] in
  let run1 := run_ex tokens false true state_ex in
  let run2 := run_ex tokens false true run1.2 in
  let bad1 := run_ex [""; "xyz"] true false state_ex in
  let bad2 := run_ex [""; "xyz"] true false bad1.2 in
  let loaded1 := run_ex [""; "xyz"] true true state_ex in
  let loaded2 := run_ex [""; "xyz"] true true loaded1.2 in
  let failed1 := run_ex ["Take"; "Aspirin"] false true (State heap_ex ∅ None) in
  (run1.1 = Ok out1
   ∧ ∃ out2, run2.1 = Ok out2
             ∧ view (heap run2.2) out2 = view (heap run1.2) out1
             ∧ view (heap run2.2) out1 = view (heap run1.2) out1)
  ∧ (bad1.1 = Raise (KeyError "xyz") ∧ bad2.1 = Raise (KeyError "xyz"))
  ∧ (loaded1.1 = Raise (KeyError "xyz") ∧ loaded2.1 = Raise (KeyError "xyz"))
  ∧ (failed1.1 = Raise OSError
     ∧ load_structures no_download failed1.2 = (Ok (), failed1.2)).
Proof.
  intros tokens out1 run1 run2 bad1 bad2 loaded1 loaded2 failed1.
  split; [|split; [|split]].
  - assert (run1.1 = Ok out1) as H1 by (vm_compute; reflexivity).
    split; [exact H1|].
    exact (proj1 (find_drugs_repeatable elements elements_order voc_pairs no_download
                    records_ex overrides_ex tokens false None true state_ex
                    run1.1 run1.2 run2.1 run2.2 state_ex_wf
                    (surjective_pairing _) (surjective_pairing _)) out1 H1).
  - assert (bad1.1 = Raise (KeyError "xyz")) as H1 by (vm_compute; reflexivity).
    split; [exact H1|].
    exact (proj1 (proj2 (find_drugs_repeatable elements elements_order voc_pairs
                           no_download records_ex overrides_ex [""; "xyz"] true None
                           false state_ex bad1.1 bad1.2 bad2.1 bad2.2 state_ex_wf
                           (surjective_pairing _) (surjective_pairing _)))
             ltac:(discriminate) (KeyError "xyz") H1).
  - assert (loaded1.1 = Raise (KeyError "xyz")) as H1 by (vm_compute; reflexivity).
    assert (load_structures no_download state_ex
            = (Ok (), (load_structures no_download state_ex).2)) as Hload
      by (vm_compute; reflexivity).
    split; [exact H1|].
    exact (proj1 (proj2 (find_drugs_repeatable elements elements_order voc_pairs
                           no_download records_ex overrides_ex [""; "xyz"] true None
                           true state_ex loaded1.1 loaded1.2 loaded2.1 loaded2.2
                           state_ex_wf (surjective_pairing _) (surjective_pairing _)))
             (λ _, ex_intro _ _ Hload) (KeyError "xyz") H1).
  - assert (load_structures no_download (State heap_ex ∅ None)
            = (Raise OSError, (load_structures no_download (State heap_ex ∅ None)).2))
      as Hload by (vm_compute; reflexivity).
    destruct (proj2 (proj2 (find_drugs_repeatable elements elements_order voc_pairs
                              no_download records_ex overrides_ex ["Take"; "Aspirin"]
                              false None true (State heap_ex ∅ None)
                              failed1.1 failed1.2
                              (run_ex ["Take"; "Aspirin"] false true failed1.2).1
                              (run_ex ["Take"; "Aspirin"] false true failed1.2).2
                              state_ex_wf (surjective_pairing _) (surjective_pairing _)))
                eq_refl OSError _ Hload) as (H1 & _ & H3).
    split; [exact H1 | exact H3].
Defined.

(** C8, as stated, fails: when the file of the structures is absent and the
    download fails, the first call raises, and leaves the cache marked (line
    113); the second call, with the same tokens and flags, does not load
    again, and returns. *)
Lemma failed_load_is_not_retried :
  let s0 := State heap_ex ∅ None in
  (run_ex ["Take"; "Aspirin"] false true s0).1 = Raise OSError
  ∧ (run_ex ["Take"; "Aspirin"] false true
       (run_ex ["Take"; "Aspirin"] false true s0).2).1 = Ok [(4, 1, 1)].
Proof. split; vm_compute; reflexivity. Qed.

Lemma match_data_fresh_copy_witness :
  let tokens := ["Take"; "Aspirin"; "and"; "Acetyl"; "Salicylate"] in
  let out := [(4, 3, 4); (5, 3, 4); (6, 1, 1)] in
  let run := run_ex tokens false true state_ex in
  run.1 = Ok out
  ∧ (∀ l, l < length (heap state_ex) → heap run.2 !! l = heap state_ex !! l)
  ∧ (∀ m l, records_ex !! m = Some l → heap run.2 !! l = heap state_ex !! l)
  ∧ NoDup (out.*1.*1)
  ∧ (∀ mention : nat * nat * nat, mention ∈ out →
       length (heap state_ex) ≤ mention.1.1
       ∧ (∀ m l, records_ex !! m = Some l → mention.1.1 ≠ l)
       ∧ ∃ variant match_ before run' after,
           matched_variant elements voc_pairs tokens false mention.1.2 mention.2 variant
           ∧ dict_get voc_pairs variant = Some match_
           ∧ out = before ++ run' ++ after
           ∧ mention ∈ run'
           ∧ Forall2 (λ (mention' : nat * nat * nat) m,
                        mention'.1.2 = mention.1.2 ∧ mention'.2 = mention.2
                        ∧ ∃ d, heap run.2 !! mention'.1.1 = Some d
                               ∧ is_merged_copy records_ex overrides_ex
                                   (heap state_ex) m variant d)
               run' match_)
  ∧ (heap run.2 !! 6 ≫= (.!! "name")) = Some (VStr "Aspirin (brand)")
  ∧ (heap run.2 !! 0 ≫= (.!! "name")) = Some (VStr "Acetylsalicylic acid").
Proof.
  intros tokens out run.
  assert (run.1 = Ok out) as Hout by (vm_compute; reflexivity).
  destruct (match_data_fresh_copy elements elements_order voc_pairs no_download
              records_ex overrides_ex tokens false None true state_ex run.1 run.2
              state_ex_wf (surjective_pairing _))
    as (Hold & Hrec & Hnew).
  split; [exact Hout|]. split; [exact Hold|]. split; [exact Hrec|].
  destruct (Hnew out Hout) as [Hnd Hall].
  split; [exact Hnd|]. split; [exact Hall|].
  split; vm_compute; reflexivity.
Defined.
